(** * flake8: option registry, configuration discovery and merging

    A shallow embedding of [flake8/option_parser.py] and a verification
    of the properties its specification states about it.

    The classes of the module are embedded in source order: [Option],
    [OptionManager], [ConfigFileFinder], [MergedConfigParser].  What the
    module takes from the Python standard library ([str] methods,
    [os.path], [configparser.RawConfigParser]) is embedded ahead of the
    class that first needs it, following the library's own code.
    Exceptions are values of an error monad; [LOG.debug] calls have no
    effect on any result and are left out. *)

From Stdlib Require Import ZArith Lia Ascii String List Bool.
From stdpp Require Import base option list strings gmap fin_maps.
From Equations Require Import Equations.
Import ListNotations.

Local Open Scope nat_scope.

(** ** Exceptions and the error monad *)

Inductive exn : Type :=
| ValueError
| AttributeError
| TypeError
| NoSectionError
| NoOptionError
| ParsingError.

Inductive result (A : Type) : Type :=
| Return (a : A)
| Raise (e : exn).
Arguments Return {A} a.
Arguments Raise {A} e.

Definition bind {A B : Type} (m : result A) (k : A -> result B) : result B :=
  match m with
  | Return a => k a
  | Raise e => Raise e
  end.

Notation "'let*' x ':=' m 'in' k" := (bind m (fun x => k))
  (at level 10, x pattern, m at level 100, k at level 200).

Definition raises {A : Type} (m : result A) : Prop := exists e, m = Raise e.

(** ** Python strings *)

Module Str.

Definition eqc (a b : ascii) : bool := Ascii.eqb a b.
Arguments eqc : simpl never.

(** [bool(s)]: a string is true when it is not empty. *)
Definition truthy (s : string) : bool :=
  match s with
  | EmptyString => false
  | String _ _ => true
  end.

(** [bool(x)] for [x] a string or [None]. *)
Definition truthy_opt (x : option string) : bool :=
  match x with
  | Some s => truthy s
  | None => false
  end.

(** [c in s]. *)
Fixpoint contains (c : ascii) (s : string) : bool :=
  match s with
  | EmptyString => false
  | String a s' => eqc a c || contains c s'
  end.

(** [s.lstrip(chars)]: drops the leading characters that are in
    [chars]. *)
Fixpoint lstrip (chars : string) (s : string) : string :=
  match s with
  | EmptyString => EmptyString
  | String a s' => if contains a chars then lstrip chars s' else s
  end.

(** [s.rstrip(chars)]: drops the trailing characters that are in
    [chars]. *)
Fixpoint rstrip (chars : string) (s : string) : string :=
  match s with
  | EmptyString => EmptyString
  | String a s' =>
      match rstrip chars s' with
      | EmptyString =>
          if contains a chars then EmptyString else String a EmptyString
      | r => String a r
      end
  end.

(** [s.strip(chars)]: both ends. *)
Definition strip (chars : string) (s : string) : string :=
  rstrip chars (lstrip chars s).

(** [s.replace(old, new)] for one-character [old] and [new]. *)
Fixpoint replace (old new : ascii) (s : string) : string :=
  match s with
  | EmptyString => EmptyString
  | String a s' => String (if eqc a old then new else a) (replace old new s')
  end.

(** [s.startswith(p)] and [s.endswith(c)] (one character). *)
Fixpoint startswith (s p : string) : bool :=
  match p, s with
  | EmptyString, _ => true
  | String _ _, EmptyString => false
  | String b p', String a s' => eqc a b && startswith s' p'
  end.

Fixpoint endswith (s : string) (c : ascii) : bool :=
  match s with
  | EmptyString => false
  | String a EmptyString => eqc a c
  | String _ s' => endswith s' c
  end.

(** [s.lower()] on ASCII letters. *)
Definition lower_ascii (a : ascii) : ascii :=
  let n := nat_of_ascii a in
  if (65 <=? n) && (n <=? 90) then ascii_of_nat (n + 32) else a.

Fixpoint lower (s : string) : string :=
  match s with
  | EmptyString => EmptyString
  | String a s' => String (lower_ascii a) (lower s')
  end.

(** [c * n]. *)
Fixpoint repeat (c : ascii) (n : nat) : string :=
  match n with
  | O => EmptyString
  | S n' => String c (repeat c n')
  end.

End Str.

(** ** class Option *)

(** Objects that are only carried along ([default], [const], callbacks)
    are represented by an identifier. *)
Inductive pyobject : Type := PyObject (id : nat).

(** The keyword arguments handed on to [optparse.Option]; [None] is
    Python's [None]. *)
Record optparse_kwargs : Type := {
  action : option string;
  default : option pyobject;
  type : option string;
  dest : option string;
  callback : option pyobject;
  callback_args : option pyobject;
  callback_kwargs : option pyobject;
  help : option string;
  metavar : option string
}.

(** The arguments of [Option.__init__]; an argument that is left out
    is [None], or [false] for the two flags. *)
Record Option_args : Type := {
  arg_short_option_name : option string;
  arg_long_option_name : option string;
  arg_action : option string;
  arg_default : option pyobject;
  arg_type : option string;
  arg_dest : option string;
  arg_nargs : option pyobject;
  arg_const : option pyobject;
  arg_choices : option pyobject;
  arg_callback : option pyobject;
  arg_callback_args : option pyobject;
  arg_callback_kwargs : option pyobject;
  arg_help : option string;
  arg_metavar : option string;
  arg_parse_from_config : bool;
  arg_comma_separated_list : bool
}.

(** An [Option] instance.  The attributes that [setattr] copies from
    [option_kwargs] are read through [option_kwargs].  [config_name] is
    [None] when the attribute was never set on the object. *)
Record Option : Type := {
  short_option_name : option string;
  long_option_name : option string;
  option_args : list string;
  option_kwargs : optparse_kwargs;
  parse_from_config : bool;
  comma_separated_list : bool;
  config_name : option string
}.

(** [filter(None, (short_option_name, long_option_name))] *)
Definition filter_None (xs : list (option string)) : list string :=
  flat_map (fun x => match x with
                     | Some s => if Str.truthy s then [s] else []
                     | None => []
                     end) xs.

(** [long_option_name.strip('-').replace('-', '_')] *)
Definition derive_config_name (long_option_name : string) : string :=
  Str.replace "-" "_" (Str.strip "-" long_option_name).

(** [Option.__init__] *)
Definition Option_init (a : Option_args) : result Option :=
  let kwargs :=
    {| action := arg_action a; default := arg_default a; type := arg_type a;
       dest := arg_dest a; callback := arg_callback a;
       callback_args := arg_callback_args a;
       callback_kwargs := arg_callback_kwargs a;
       help := arg_help a; metavar := arg_metavar a |} in
  let self cn :=
    {| short_option_name := arg_short_option_name a;
       long_option_name := arg_long_option_name a;
       option_args :=
         filter_None [arg_short_option_name a; arg_long_option_name a];
       option_kwargs := kwargs;
       parse_from_config := arg_parse_from_config a;
       comma_separated_list := arg_comma_separated_list a;
       config_name := cn |} in
  if arg_parse_from_config a then
    match arg_long_option_name a with
    | Some long =>
        if Str.truthy long
        then Return (self (Some (derive_config_name long)))
        else Raise ValueError
    | None => Raise ValueError
    end
  else Return (self None).

(** Reading [option.config_name]: an [AttributeError] when the attribute
    is not there. *)
Definition get_config_name (o : Option) : result string :=
  match config_name o with
  | Some n => Return n
  | None => Raise AttributeError
  end.

(** [Option.to_optparse], up to the call of [optparse.Option] itself: the
    positional and keyword arguments it is called with. *)
Definition to_optparse (o : Option) : list string * optparse_kwargs :=
  (option_args o, option_kwargs o).

(** ** os.path (posixpath and genericpath) *)

(** [os.path] as it resolves on POSIX.  [sys.platform] enters the
    embedding only where the module itself reads it, in the choice of the
    user's file. *)
Module posixpath.

Definition sep : ascii := "/"%char.

(** [s[:n]] and [s[n:]] for [0 <= n]. *)
Fixpoint take (n : nat) (s : string) : string :=
  match n, s with
  | S n', String a s' => String a (take n' s')
  | _, _ => EmptyString
  end.

Fixpoint drop (n : nat) (s : string) : string :=
  match n, s with
  | S n', String _ s' => drop n' s'
  | _, _ => s
  end.

(** [s.rfind(c)]: the highest index of [c] in [s], or [-1]. *)
Fixpoint rfind (c : ascii) (s : string) : Z :=
  match s with
  | EmptyString => (-1)%Z
  | String a s' =>
      let r := rfind c s' in
      if (0 <=? r)%Z then (r + 1)%Z
      else if Str.eqc a c then 0%Z else (-1)%Z
  end.

(** [s.split(c)]: never empty. *)
Fixpoint split_on (c : ascii) (s : string) : list string :=
  match s with
  | EmptyString => [EmptyString]
  | String a s' =>
      match split_on c s' with
      | h :: t => if Str.eqc a c then EmptyString :: h :: t
                  else String a h :: t
      | [] => [String a EmptyString]
      end
  end.

(** [isabs(s)] *)
Definition isabs (s : string) : bool := Str.startswith s "/".

(** [join(a, b)] *)
Definition join (a b : string) : string :=
  if Str.startswith b "/" then b
  else if negb (Str.truthy a) || Str.endswith a sep then a +:+ b
  else a +:+ "/" +:+ b.

(** [split(p)]: [(head, tail)], [tail] being what follows the last
    slash. *)
Definition split (p : string) : string * string :=
  let i := Z.to_nat (rfind sep p + 1) in
  let head := take i p in
  let tail := drop i p in
  let head :=
    if Str.truthy head
       && negb (String.eqb head (Str.repeat sep (String.length head)))
    then Str.rstrip "/" head else head in
  (head, tail).

(** One round of the loop of [normpath] over the components. *)
Definition normpath_step (initial_slashes : nat)
    (new_comps : list string) (comp : string) : list string :=
  if String.eqb comp "" || String.eqb comp "." then new_comps
  else if negb (String.eqb comp "..")
          || ((initial_slashes =? 0) && (length new_comps =? 0))
          || (negb (length new_comps =? 0)
              && String.eqb (List.last new_comps "") "..")
  then new_comps ++ [comp]
  else if negb (length new_comps =? 0) then removelast new_comps
  else new_comps.

(** [normpath(path)] *)
Definition normpath (path : string) : string :=
  if negb (Str.truthy path) then "."
  else
    let initial_slashes :=
      if Str.startswith path "/" then
        if Str.startswith path "//" && negb (Str.startswith path "///")
        then 2 else 1
      else 0 in
    let comps := split_on sep path in
    let new_comps := fold_left (normpath_step initial_slashes) comps [] in
    let path := String.concat "/" new_comps in
    let path := Str.repeat sep initial_slashes +:+ path in
    if Str.truthy path then path else ".".

(** [abspath(path)], [cwd] being [os.getcwd()]. *)
Definition abspath (cwd path : string) : string :=
  let path := if isabs path then path else join cwd path in
  normpath path.

(** [min(m)] and [max(m)] on a non-empty list of strings, in the order
    of [str]: the first smallest, the first largest. *)
Definition min_str (s : string) (m : list string) : string :=
  fold_left (fun acc x => if String.ltb x acc then x else acc) m s.

Definition max_str (s : string) (m : list string) : string :=
  fold_left (fun acc x => if String.ltb acc x then x else acc) m s.

(** The scan of [commonprefix]: [s1[:i]] for the first [i] with
    [s1[i] != s2[i]], else [s1].  With [s1 <= s2] the index stays in the
    range of [s2]. *)
Fixpoint common_scan (s1 s2 : string) : string :=
  match s1, s2 with
  | String a s1', String b s2' =>
      if Str.eqc a b then String a (common_scan s1' s2') else EmptyString
  | _, _ => EmptyString
  end.

(** [commonprefix(m)] *)
Definition commonprefix (m : list string) : string :=
  match m with
  | [] => ""
  | s :: m' => common_scan (min_str s m') (max_str s m')
  end.

End posixpath.

(** ** class OptionManager *)

(** [optparse.OptionParser] is not part of the module: the manager is
    generic in the parser object [P] and in what
    [parser.add_option(option.to_optparse())] does to it, which may raise. *)
Record OptionManager (P : Type) : Type := {
  parser : P;
  config_options_dict : gmap string Option;
  options : list Option;
  manager_program_name : string;
  version : option string
}.
Arguments parser {P} _.
Arguments config_options_dict {P} _.
Arguments options {P} _.
Arguments manager_program_name {P} _.
Arguments version {P} _.

Section OptionManager.

Variable P : Type.
Variable OptionParser : string -> option string -> string -> P.
Variable parser_add_option : P -> list string * optparse_kwargs -> result P.

(** [OptionManager.__init__] *)
Definition OptionManager_init (prog : string) (version : option string)
    (usage : string) : OptionManager P :=
  {| parser := OptionParser prog version usage;
     config_options_dict := ∅;
     options := [];
     manager_program_name := prog;
     version := version |}.

(** [OptionManager.add_option] *)
Definition add_option (self : OptionManager P) (a : Option_args)
    : result (OptionManager P) :=
  let* option := Option_init a in
  let* parser' := parser_add_option (parser self) (to_optparse option) in
  let options' := options self ++ [option] in
  if parse_from_config option then
    let* config_name := get_config_name option in
    Return {| parser := parser';
              config_options_dict :=
                <[config_name := option]> (config_options_dict self);
              options := options';
              manager_program_name := manager_program_name self;
              version := version self |}
  else
    Return {| parser := parser';
              config_options_dict := config_options_dict self;
              options := options';
              manager_program_name := manager_program_name self;
              version := version self |}.

End OptionManager.

Arguments OptionManager_init {P} OptionParser prog version usage.
Arguments add_option {P} parser_add_option self a.

(** ** configparser.RawConfigParser *)

Module configparser.

(** What [RawConfigParser._read] makes of a file that could be opened:
    it raises on text that it refuses (a line before the first section
    header, a line that is no option; under Python 3 also a section or an
    option that the file repeats, which Python 2 merges as
    [add_section_items] does), and otherwise adds the sections it finds,
    each with its options in file order.  The errors of the parser are
    one error here, [ParsingError]: the module catches none of them.  A
    section headed [DEFAULT] holds the defaults of every section. *)
Inductive contents : Type :=
| Malformed
| Sections (secs : list (string * list (string * string))).

(** The parser object: its [_sections], in insertion order, and its
    [_defaults], which are kept here under the name [DEFAULT]; that name
    is no section of the parser. *)
Definition RawConfigParser : Type := list (string * list (string * string)).

Definition empty : RawConfigParser := [].

Definition DEFAULTSECT : string := "DEFAULT".

(** [d.get(k)] and [d[k] = v] on an ordered dictionary. *)
Fixpoint assoc {A : Type} (k : string) (d : list (string * A)) : option A :=
  match d with
  | [] => None
  | (k', v) :: d' => if String.eqb k k' then Some v else assoc k d'
  end.

Fixpoint assoc_set {A : Type} (k : string) (v : A) (d : list (string * A))
    : list (string * A) :=
  match d with
  | [] => [(k, v)]
  | (k', v') :: d' =>
      if String.eqb k k' then (k', v) :: d' else (k', v') :: assoc_set k v d'
  end.

(** [optionxform]: option names are lower-cased. *)
Definition optionxform (o : string) : string := Str.lower o.

(** [self._defaults] *)
Definition _defaults (cfg : RawConfigParser) : list (string * string) :=
  match assoc DEFAULTSECT cfg with
  | Some d => d
  | None => []
  end.

(** [self._sections.get(section)] *)
Definition _sections_get (cfg : RawConfigParser) (section : string)
    : option (list (string * string)) :=
  if String.eqb section DEFAULTSECT then None else assoc section cfg.

(** [has_section(section)]: [section in self._sections]. *)
Definition has_section (cfg : RawConfigParser) (section : string) : bool :=
  match _sections_get cfg section with
  | Some _ => true
  | None => false
  end.

Definition add_section_items (cfg : RawConfigParser)
    (sec : string * list (string * string)) : RawConfigParser :=
  let cur := match assoc (fst sec) cfg with
             | Some items => items
             | None => []
             end in
  assoc_set (fst sec)
    (fold_left (fun items kv => assoc_set (optionxform (fst kv)) (snd kv) items)
       (snd sec) cur)
    cfg.

(** [_read(fp, filename)] *)
Definition _read (cfg : RawConfigParser) (c : contents) : result RawConfigParser :=
  match c with
  | Malformed => Raise ParsingError
  | Sections secs => Return (fold_left add_section_items secs cfg)
  end.

(** [read(filenames)]: a file that cannot be opened is passed over, one
    that is opened is parsed and its name is added to [read_ok].
    [open_ f] is [None] when [open(f)] raises [OSError]. *)
Fixpoint read (open_ : string -> option contents) (cfg : RawConfigParser)
    (filenames : list string) : result (RawConfigParser * list string) :=
  match filenames with
  | [] => Return (cfg, [])
  | filename :: rest =>
      match open_ filename with
      | None => read open_ cfg rest
      | Some c =>
          let* cfg' := _read cfg c in
          let* r := read open_ cfg' rest in
          Return (fst r, filename :: snd r)
      end
  end.

(** [options(section)]: the keys of a copy of the section updated with
    the defaults, so the names of the section in their order, then the
    names that only the defaults have. *)
Definition options (cfg : RawConfigParser) (section : string)
    : result (list string) :=
  match _sections_get cfg section with
  | Some items =>
      Return (map fst items
              ++ List.filter
                   (fun k => negb (existsb (String.eqb k) (map fst items)))
                   (map fst (_defaults cfg)))
  | None => Raise NoSectionError
  end.

(** [get(section, option)]: the value of the section, else the default;
    [DEFAULT] itself can be asked for a default. *)
Definition get (cfg : RawConfigParser) (section option : string)
    : result string :=
  let opt := optionxform option in
  match _sections_get cfg section with
  | None =>
      if String.eqb section DEFAULTSECT then
        match assoc opt (_defaults cfg) with
        | Some v => Return v
        | None => Raise NoOptionError
        end
      else Raise NoSectionError
  | Some items =>
      match assoc opt items with
      | Some v => Return v
      | None =>
          match assoc opt (_defaults cfg) with
          | Some v => Return v
          | None => Raise NoOptionError
          end
      end
  end.

(** [int(s)] for a string: blanks around an optional sign and decimal
    digits (the underscores that Python 3.6 and later take between
    digits are not part of it). *)
Definition whitespace : string :=
  String " " (String (ascii_of_nat 9) (String (ascii_of_nat 10)
    (String (ascii_of_nat 11) (String (ascii_of_nat 12)
      (String (ascii_of_nat 13) EmptyString))))).

Fixpoint digits (s : string) (acc : Z) : option Z :=
  match s with
  | EmptyString => Some acc
  | String a s' =>
      let n := nat_of_ascii a in
      if (48 <=? n) && (n <=? 57)
      then digits s' (10 * acc + Z.of_nat (n - 48))%Z
      else None
  end.

Definition int (s : string) : result Z :=
  let unsigned (t : string) : option Z :=
    if Str.truthy t then digits t 0%Z else None in
  let r :=
    match Str.strip whitespace s with
    | String "-" t => option_map Z.opp (unsigned t)
    | String "+" t => unsigned t
    | t => unsigned t
    end in
  match r with
  | Some z => Return z
  | None => Raise ValueError
  end.

(** [getint(section, option)] *)
Definition getint (cfg : RawConfigParser) (section option : string)
    : result Z :=
  let* v := get cfg section option in int v.

(** [BOOLEAN_STATES] *)
Definition BOOLEAN_STATES : list (string * bool) :=
  [("1", true); ("yes", true); ("true", true); ("on", true);
   ("0", false); ("no", false); ("false", false); ("off", false)].

(** [getboolean(section, option)] *)
Definition getboolean (cfg : RawConfigParser) (section option : string)
    : result bool :=
  let* v := get cfg section option in
  match assoc (Str.lower v) BOOLEAN_STATES with
  | Some b => Return b
  | None => Raise ValueError
  end.

End configparser.

(** ** The operating system *)

(** What a path names: a directory, or a file with what the configuration
    parser makes of its text. *)
Inductive node : Type :=
| Directory
| File (c : configparser.contents).

(** The process environment the module reads: [sys.platform == 'win32'],
    [os.environ.get('XDG_CONFIG_HOME')], [os.path.expanduser],
    [os.getcwd()] and the file system.  Nothing in the module writes
    to it. *)
Record world : Type := {
  win32 : bool;
  XDG_CONFIG_HOME : option string;
  expanduser : string -> string;
  getcwd : string;
  fs : string -> option node
}.

(** [os.path.exists(path)] *)
Definition path_exists (w : world) (path : string) : bool :=
  match fs w path with
  | Some _ => true
  | None => false
  end.

(** [open(path)]: [None] for the [OSError] of a missing path or a
    directory. *)
Definition open_ (w : world) (path : string) : option configparser.contents :=
  match fs w path with
  | Some (File c) => Some c
  | _ => None
  end.

(** ** class ConfigFileFinder *)

Definition PROJECT_FILENAMES : list string := ["setup.cfg"; "tox.ini"].

Record ConfigFileFinder : Type := {
  is_windows : bool;
  xdg_home : string;
  program_config : string;
  program_name : string;
  project_filenames : list string;
  global_filenames : list string;
  local_directory : string;
  parent : string;
  tail : string
}.

(** [ConfigFileFinder.__init__]; [args] is the empty list for [None]. *)
Definition ConfigFileFinder_init (w : world) (program_name : string)
    (args : list string) : ConfigFileFinder :=
  let program_config := "." +:+ program_name in
  let args := match args with
              | [] => ["."]
              | _ => args
              end in
  let common := posixpath.abspath (getcwd w) (posixpath.commonprefix args) in
  {| is_windows := win32 w;
     xdg_home := match XDG_CONFIG_HOME w with
                 | Some d => d
                 | None => expanduser w "~/.config"
                 end;
     program_config := program_config;
     program_name := program_name;
     project_filenames := ["setup.cfg"; "tox.ini"; program_config];
     global_filenames := [program_config];
     local_directory := ".";
     parent := common;
     tail := common |}.

(** [ConfigFileFinder._read_config] *)
Definition _read_config (w : world) (files : list string)
    : result (configparser.RawConfigParser * list string) :=
  let config := configparser.empty in
  let* r := configparser.read (open_ w) config files in
  Return (fst r, snd r).

(** The three candidates of one directory:
    [os.path.abspath(os.path.join(parent, project_filename))] for each
    project filename. *)
Definition candidates_in (w : world) (self : ConfigFileFinder)
    (parent : string) : list string :=
  map (fun project_filename =>
         posixpath.abspath (getcwd w) (posixpath.join parent project_filename))
      (project_filenames self).

(** The [while tail:] loop of [generate_possible_local_config_files], from
    the values [parent] and [tail] have at its head; the list is what the
    generator yields, in order. *)
Equations? walk_up (w : world) (self : ConfigFileFinder)
    (cur_parent cur_tail : string) : list string
    by wf (match cur_tail with
           | EmptyString => 0
           | String _ _ => S (String.length cur_parent)
           end) lt :=
  walk_up w self cur_parent EmptyString := [];
  walk_up w self cur_parent (String _ _) :=
    candidates_in w self cur_parent
    ++ walk_up w self (fst (posixpath.split cur_parent))
                      (snd (posixpath.split cur_parent)).
Proof.
  change (match snd (posixpath.split cur_parent) with
          | EmptyString => 0
          | String _ _ => S (String.length (fst (posixpath.split cur_parent)))
          end < S (String.length cur_parent)).
  assert (Hcut : forall n p,
             String.length (posixpath.take n p)
             + String.length (posixpath.drop n p) = String.length p).
  { induction n as [|n IH]; intros [|c p]; simpl; auto. }
  assert (Hstrip : forall p,
             String.length (Str.rstrip "/" p) <= String.length p).
  { induction p as [|c p IH]; simpl; [lia|].
    destruct (Str.rstrip "/" p); [destruct (_ || _)|]; simpl in *; lia. }
  unfold posixpath.split. cbn [fst snd].
  set (i := Z.to_nat (posixpath.rfind posixpath.sep cur_parent + 1)).
  specialize (Hcut i cur_parent). specialize (Hstrip (posixpath.take i cur_parent)).
  destruct (posixpath.drop i cur_parent); [lia|].
  destruct (_ && _); simpl in *; lia.
Qed.

(** [ConfigFileFinder.generate_possible_local_config_files] *)
Definition generate_possible_local_config_files (w : world)
    (self : ConfigFileFinder) : list string :=
  walk_up w self (parent self) (tail self).

(** [ConfigFileFinder.local_config_files] *)
Definition local_config_files (w : world) (self : ConfigFileFinder)
    : list string :=
  filter (fun filename => path_exists w filename = true)
    (generate_possible_local_config_files w self).

(** [ConfigFileFinder.local_configs] *)
Definition local_configs (w : world) (self : ConfigFileFinder)
    : result configparser.RawConfigParser :=
  let* r := _read_config w (local_config_files w self) in
  Return (fst r).

(** [ConfigFileFinder.user_config_file] *)
Definition user_config_file (w : world) (self : ConfigFileFinder) : string :=
  if is_windows self then expanduser w ("~\" +:+ program_config self)
  else posixpath.join (xdg_home self) (program_name self).

(** [ConfigFileFinder.user_config]; [read] takes a single file name as
    the list of that one name. *)
Definition user_config (w : world) (self : ConfigFileFinder)
    : result configparser.RawConfigParser :=
  let* r := _read_config w [user_config_file w self] in
  Return (fst r).

(** ** class MergedConfigParser *)

(** The values a configuration option can take once coerced. *)
Inductive value : Type :=
| VStr (s : string)
| VInt (z : Z)
| VBool (b : bool)
| VList (l : list string).

(** Modelled from the spec: [utils.parse_comma_separated_list], of the
    module [flake8.utils], which is not among the sources.  It splits the
    string on commas and trims the blanks around each element.  What it
    does to a value that is no string the specification leaves open; here
    it raises, an integer or a boolean having no [split]. *)
Definition parse_comma_separated_list (v : value) : result value :=
  match v with
  | VStr s =>
      Return (VList (map (Str.strip configparser.whitespace)
                         (posixpath.split_on "," s)))
  | _ => Raise AttributeError
  end.

Definition GETINT_METHODS : list string := ["int"; "count"].
Definition GETBOOL_METHODS : list string := ["store_true"; "store_false"].

(** [x in s] for [x] a string or [None] and [s] a set of strings. *)
Definition in_set (x : option string) (s : list string) : bool :=
  match x with
  | Some n => existsb (String.eqb n) s
  | None => false
  end.

Record MergedConfigParser : Type := {
  merged_program_name : string;
  args : list string;
  config_finder : ConfigFileFinder;
  config_options : gmap string Option
}.

(** [MergedConfigParser.__init__] *)
Definition MergedConfigParser_init {P : Type} (w : world)
    (option_manager : OptionManager P) (args : list string)
    : MergedConfigParser :=
  {| merged_program_name := manager_program_name option_manager;
     args := args;
     config_finder :=
       ConfigFileFinder_init w (manager_program_name option_manager) args;
     config_options := config_options_dict option_manager |}.

(** The method [_parse_config] picks for an option, applied to
    [(self.program_name, option_name)], and the comma-separated
    post-processing. *)
Definition coerce (config : configparser.RawConfigParser)
    (section option_name : string) (option : Option) : result value :=
  let* value :=
    if in_set (type (option_kwargs option)) GETINT_METHODS then
      let* z := configparser.getint config section option_name in
      Return (VInt z)
    else if in_set (action (option_kwargs option)) GETBOOL_METHODS then
      let* b := configparser.getboolean config section option_name in
      Return (VBool b)
    else
      let* s := configparser.get config section option_name in
      Return (VStr s) in
  if comma_separated_list option then parse_comma_separated_list value
  else Return value.

(** The [for option_name in ...] loop of [_parse_config]: [config] is the
    parser the values are read from, [config_dict] the dictionary built
    so far. *)
Fixpoint parse_config_loop (self : MergedConfigParser)
    (config : configparser.RawConfigParser) (option_names : list string)
    (config_dict : gmap string value) : result (gmap string value) :=
  match option_names with
  | [] => Return config_dict
  | option_name :: rest =>
      match config_options self !! option_name with
      | None => parse_config_loop self config rest config_dict
      | Some option =>
          let* final_value :=
            coerce config (merged_program_name self) option_name option in
          parse_config_loop self config rest
            (<[option_name := final_value]> config_dict)
      end
  end.

(** [MergedConfigParser._parse_config].  [config] is read anew from the
    local files; the names come from [config_parser], the values from
    [config].  After the loop the function ends without a [return]: its
    result is [None], and [Some] dictionary only in the branch of the
    missing section. *)
Definition _parse_config (w : world) (self : MergedConfigParser)
    (config_parser : configparser.RawConfigParser)
    : result (option (gmap string value)) :=
  let* config := local_configs w (config_finder self) in
  if negb (configparser.has_section config (merged_program_name self)) then
    Return (Some ∅)
  else
    let* option_names :=
      configparser.options config_parser (merged_program_name self) in
    let* config_dict := parse_config_loop self config option_names ∅ in
    Return None.

(** [MergedConfigParser.is_configured_by] *)
Definition is_configured_by (self : MergedConfigParser)
    (config : configparser.RawConfigParser) : bool :=
  configparser.has_section config (merged_program_name self).

(** [MergedConfigParser.parse_local_config] *)
Definition parse_local_config (w : world) (self : MergedConfigParser)
    : result (option (gmap string value)) :=
  let* config := local_configs w (config_finder self) in
  if negb (is_configured_by self config) then Return None
  else _parse_config w self config.

(** [MergedConfigParser.parse_user_config] *)
Definition parse_user_config (w : world) (self : MergedConfigParser)
    : result (option (gmap string value)) :=
  let* config := user_config w (config_finder self) in
  if negb (is_configured_by self config) then Return None
  else _parse_config w self config.

(** [config.setdefault(option, value)] on a dictionary. *)
Definition setdefault (config : gmap string value) (option : string)
    (v : value) : gmap string value :=
  match config !! option with
  | Some _ => config
  | None => <[option := v]> config
  end.

(** The loop of [parse] over [user_config.items()], [config] being what
    [parse_local_config] returned: [None] has no [setdefault], which the
    first item finds out. *)
Fixpoint merge_items (items : list (string * value))
    (config : option (gmap string value))
    : result (option (gmap string value)) :=
  match items with
  | [] => Return config
  | (option, v) :: rest =>
      match config with
      | None => Raise AttributeError
      | Some d => merge_items rest (Some (setdefault d option v))
      end
  end.

(** The last three lines of [parse], from the two parsed results:
    [None] has no [items]. *)
Definition merge (user_config config : option (gmap string value))
    : result (option (gmap string value)) :=
  match user_config with
  | None => Raise AttributeError
  | Some u => merge_items (map_to_list u) config
  end.

(** [MergedConfigParser.parse] *)
Definition parse (w : world) (self : MergedConfigParser)
    : result (option (gmap string value)) :=
  let* user_config := parse_user_config w self in
  let* config := parse_local_config w self in
  merge user_config config.

(** * Vocabulary of the properties, and example states *)


(** The registration [add_option(long_option_name, parse_from_config=True)],
    every other argument at its default. *)
Definition from_config_args (long_option_name : option string) : Option_args :=
  {| arg_short_option_name := None; arg_long_option_name := long_option_name;
     arg_action := None; arg_default := None; arg_type := None;
     arg_dest := None; arg_nargs := None; arg_const := None;
     arg_choices := None; arg_callback := None; arg_callback_args := None;
     arg_callback_kwargs := None; arg_help := None; arg_metavar := None;
     arg_parse_from_config := true; arg_comma_separated_list := false |}.

(** A string of nothing but [c]. *)
Fixpoint only (c : ascii) (s : string) : bool :=
  match s with
  | EmptyString => true
  | String a s' => Str.eqc a c && only c s'
  end.

(** A path component: not empty, without a slash. *)
Definition component (c : string) : Prop :=
  Str.truthy c = true /\ Str.contains posixpath.sep c = false.

(** A component that [normpath] keeps: neither [.] nor [..]. *)
Definition name (c : string) : Prop :=
  component c /\ c <> "." /\ c <> "..".

(** The normalised absolute path of the components [comps], below a root
    of [k] slashes. *)
Definition mkpath (k : nat) (comps : list string) : string :=
  Str.repeat posixpath.sep k +:+ String.concat "/" comps.

(** The scan of [commonprefix] never reads [s2] beyond its end. *)
Fixpoint scan_in_range (s1 s2 : string) : bool :=
  match s1, s2 with
  | String a s1', String b s2' =>
      if Str.eqc a b then scan_in_range s1' s2' else true
  | String _ _, EmptyString => false
  | EmptyString, _ => true
  end.

(** The prefixes of a list, shortest first. *)
Fixpoint inits {A : Type} (l : list A) : list (list A) :=
  [] :: match l with
        | [] => []
        | x :: l' => map (cons x) (inits l')
        end.

(** The directories from [mkpath k comps] up to the root, each once, the
    root last. *)
Definition ancestors (k : nat) (comps : list string) : list string :=
  rev (map (mkpath k) (inits comps)).

(** The file [n] in the directory [d]: a slash between the two, which
    the root has already. *)
Definition in_directory (d n : string) : string :=
  if only posixpath.sep d then d +:+ n else d +:+ "/" +:+ n.

(** The three candidates of the directory [d], in the order of
    [project_filenames]. *)
Definition three_in (program_name d : string) : list string :=
  [in_directory d "setup.cfg"; in_directory d "tox.ini";
   in_directory d ("." +:+ program_name)].

(** The sections of the files of [files] that can be opened, in order. *)
Definition sections_of (w : world) (files : list string)
    : list (string * list (string * string)) :=
  flat_map (fun f => match open_ w f with
                     | Some (configparser.Sections secs) => secs
                     | _ => []
                     end) files.

(** [open(f)] succeeds. *)
Definition readable (w : world) (f : string) : bool :=
  match open_ w f with
  | Some _ => true
  | None => false
  end.

(** An operating system for the examples: POSIX, no [XDG_CONFIG_HOME],
    home directory [/home/user], working directory [/proj], and the files
    of [files]. *)
Definition example_world (files : list (string * node)) : world :=
  {| win32 := false;
     XDG_CONFIG_HOME := None;
     expanduser := fun p => match p with
                            | String "~" rest => "/home/user" +:+ rest
                            | _ => p
                            end;
     getcwd := "/proj";
     fs := fun p => configparser.assoc p files |}.

Definition config_file (secs : list (string * list (string * string))) : node :=
  File (configparser.Sections secs).

(** The registry of the examples: [--ignore], a string, and
    [--max-line-length], an integer, both read from the configuration, on
    a parser that takes every option. *)
Definition accept_option (p : unit) (x : list string * optparse_kwargs)
    : result unit := Return tt.

Definition registrations : result (OptionManager unit) :=
  let* m := add_option accept_option
              (OptionManager_init (fun _ _ _ => tt) "flake8" None
                 "%prog [options] input")
              (from_config_args (Some "--ignore")) in
  add_option accept_option m
    {| arg_short_option_name := None;
       arg_long_option_name := Some "--max-line-length";
       arg_action := None; arg_default := None; arg_type := Some "int";
       arg_dest := None; arg_nargs := None; arg_const := None;
       arg_choices := None; arg_callback := None; arg_callback_args := None;
       arg_callback_kwargs := None; arg_help := None; arg_metavar := None;
       arg_parse_from_config := true; arg_comma_separated_list := false |}.

Definition example_manager : OptionManager unit :=
  match registrations with
  | Return m => m
  | Raise _ =>
      OptionManager_init (fun _ _ _ => tt) "flake8" None "%prog [options] input"
  end.

(** [MergedConfigParser(option_manager)] on the registry of the examples,
    in the world [w]. *)
Definition example_parser (w : world) : MergedConfigParser :=
  MergedConfigParser_init w example_manager [].

(** What [_parse_config] does with the user configuration: its result,
    and the dictionary its loop builds and the function then drops. *)
Definition example_filter_user_config (w : world)
    : result (option (gmap string value)) :=
  let* config_parser := user_config w (config_finder (example_parser w)) in
  _parse_config w (example_parser w) config_parser.

Definition example_user_config_dict (w : world) : result (gmap string value) :=
  let self := example_parser w in
  let* config_parser := user_config w (config_finder self) in
  let* config := local_configs w (config_finder self) in
  let* option_names :=
    configparser.options config_parser (merged_program_name self) in
  parse_config_loop self config option_names ∅.

(** Both configurations have the section and set [ignore]: [E1] in the
    project, [E2] for the user. *)
Definition world_both : world :=
  example_world
    [("/proj/setup.cfg", config_file [("flake8", [("ignore", "E1")])]);
     ("/home/user/.config/flake8", config_file [("flake8", [("ignore", "E2")])])].

(** Only the project has the section. *)
Definition world_local_only : world :=
  example_world
    [("/proj/setup.cfg", config_file [("flake8", [("ignore", "E1")])])].

(** The project's section holds no integer where one is expected; the
    user has no file. *)
Definition world_bad_integer : world :=
  example_world
    [("/proj/tox.ini", config_file [("flake8", [("max_line_length", "abc")])])].

(** No configuration file at all. *)
Definition world_empty : world := example_world [].

(** Several registrations in a row: [add_option] for each record of
    arguments, in order, as long as none raises. *)
Fixpoint add_options {P : Type}
    (padd : P -> list string * optparse_kwargs -> result P)
    (self : OptionManager P) (registrations : list Option_args)
    : result (OptionManager P) :=
  match registrations with
  | [] => Return self
  | a :: rest => let* m := add_option padd self a in add_options padd m rest
  end.


(** The arguments [a] with other values for [nargs], [const] and
    [choices]. *)
Definition with_nargs_const_choices (a : Option_args)
    (nargs const choices : option pyobject) : Option_args :=
  {| arg_short_option_name := arg_short_option_name a;
     arg_long_option_name := arg_long_option_name a;
     arg_action := arg_action a; arg_default := arg_default a;
     arg_type := arg_type a; arg_dest := arg_dest a;
     arg_nargs := nargs; arg_const := const; arg_choices := choices;
     arg_callback := arg_callback a;
     arg_callback_args := arg_callback_args a;
     arg_callback_kwargs := arg_callback_kwargs a;
     arg_help := arg_help a; arg_metavar := arg_metavar a;
     arg_parse_from_config := arg_parse_from_config a;
     arg_comma_separated_list := arg_comma_separated_list a |}.

(** The candidate paths below the components [comps], as lists of
    components: every prefix of [comps], the longest first, followed by
    each of [names]. *)
Definition candidate_comps (names comps : list string) : list (list string) :=
  flat_map (fun p => map (fun n => p ++ [n]) names) (rev (inits comps)).

(** The value a parser holds for an option under the name of a section,
    if any: what the section itself sets, and for [DEFAULT] what the
    defaults set. *)
Definition value_in (cfg : configparser.RawConfigParser)
    (section option_name : string) : option string :=
  match configparser.assoc section cfg with
  | Some items =>
      configparser.assoc (configparser.optionxform option_name) items
  | None => None
  end.

(** The value that the file [f] sets for an option under the name of a
    section: none when the file cannot be opened, is malformed or does
    not set the option there. *)
Definition file_value (w : world) (f section option_name : string)
    : option string :=
  match open_ w f with
  | Some (configparser.Sections secs) =>
      value_in (fold_left configparser.add_section_items secs
                  configparser.empty) section option_name
  | _ => None
  end.

(** Every option name of the parser is in the form [optionxform] gives
    it. *)
Definition names_transformed (cfg : configparser.RawConfigParser) : Prop :=
  Forall (fun sec =>
            Forall (fun kv => configparser.optionxform (fst kv) = fst kv)
                   (snd sec)) cfg.

(** A project with a configuration of its own in a subdirectory:
    [ignore] is set in [/proj/sub/setup.cfg] and in [/proj/setup.cfg]. *)
Definition world_nested : world :=
  example_world
    [("/proj/sub/setup.cfg", config_file [("flake8", [("ignore", "E1")])]);
     ("/proj/setup.cfg",
      config_file [("flake8", [("ignore", "E2"); ("max_line_length", "100")])])].

(** [world_both] with one more file, in a directory that is no ancestor
    of the project. *)
Definition world_both_and_more : world :=
  example_world
    [("/proj/setup.cfg", config_file [("flake8", [("ignore", "E1")])]);
     ("/home/user/.config/flake8", config_file [("flake8", [("ignore", "E2")])]);
     ("/elsewhere/setup.cfg", config_file [("flake8", [("ignore", "E3")])])].

(** The user sets [ignore]; the project has the section and does not set
    it. *)
Definition world_user_sets_more : world :=
  example_world
    [("/proj/setup.cfg", config_file [("flake8", [("max_line_length", "100")])]);
     ("/home/user/.config/flake8", config_file [("flake8", [("ignore", "E2")])])].

(** The project's file has defaults: [ignore] is set under [DEFAULT],
    and the section of the program sets [max_line_length] only; the user
    sets [ignore]. *)
Definition world_defaults : world :=
  example_world
    [("/proj/setup.cfg",
      config_file [("DEFAULT", [("ignore", "E9")]);
                   ("flake8", [("max_line_length", "100")])]);
     ("/home/user/.config/flake8", config_file [("flake8", [("ignore", "E2")])])].

(** Only the user has the section. *)
Definition world_user_only : world :=
  example_world
    [("/home/user/.config/flake8", config_file [("flake8", [("ignore", "E2")])])].

(** * Properties *)

(** ** Strings *)

Lemma eqc_spec a b : reflect (a = b) (Str.eqc a b).
Proof.
  unfold Str.eqc. destruct (Ascii.eqb_spec a b); constructor; assumption.
Qed.

Lemma rstrip_not_in chars a s :
  Str.contains a chars = false ->
  Str.rstrip chars (String a s) = String a (Str.rstrip chars s).
Proof.
  intros Ha; simpl. rewrite Ha. destruct (Str.rstrip chars s); reflexivity.
Qed.

Lemma lstrip_rstrip_comm chars s :
  Str.rstrip chars (Str.lstrip chars s) = Str.lstrip chars (Str.rstrip chars s).
Proof.
  induction s as [|a s IH]; [reflexivity|].
  destruct (Str.contains a chars) eqn:Ha.
  - simpl. rewrite Ha, IH.
    destruct (Str.rstrip chars s) as [|b r] eqn:Er; [reflexivity|].
    simpl. rewrite Ha. reflexivity.
  - rewrite rstrip_not_in by assumption. simpl. rewrite Ha.
    apply rstrip_not_in; assumption.
Qed.

Lemma rstrip_cons chars a s :
  Str.rstrip chars (String a s) =
    match Str.rstrip chars s with
    | EmptyString =>
        if Str.contains a chars then EmptyString else String a EmptyString
    | r => String a r
    end.
Proof. reflexivity. Qed.

Lemma rstrip_no_trailing c s :
  Str.endswith s c = false -> Str.rstrip (String c EmptyString) s = s.
Proof.
  induction s as [|a s IH]; [reflexivity|].
  intros He. rewrite rstrip_cons. destruct s as [|b s'].
  - simpl in *. rewrite orb_false_r.
    destruct (eqc_spec c a) as [->|_]; [|reflexivity].
    destruct (eqc_spec a a); congruence.
  - rewrite IH by exact He. reflexivity.
Qed.

Lemma replace_removes old new s :
  old <> new -> Str.contains old (Str.replace old new s) = false.
Proof.
  intros Hne. induction s as [|a s IH]; [reflexivity|].
  simpl. rewrite IH, orb_false_r.
  destruct (eqc_spec a old) as [->|Ha].
  - destruct (eqc_spec new old); congruence.
  - destruct (eqc_spec a old); congruence.
Qed.

(** ** Option *)

Lemma Option_init_not_eligible a :
  arg_parse_from_config a = false ->
  exists o, Option_init a = Return o /\ parse_from_config o = false.
Proof.
  intros H. unfold Option_init. rewrite H. eexists; split; reflexivity.
Qed.

Lemma Option_init_fields a o :
  Option_init a = Return o ->
  short_option_name o = arg_short_option_name a
  /\ long_option_name o = arg_long_option_name a
  /\ parse_from_config o = arg_parse_from_config a
  /\ comma_separated_list o = arg_comma_separated_list a.
Proof.
  unfold Option_init.
  destruct (arg_parse_from_config a) eqn:Hp;
    [destruct (arg_long_option_name a) as [[|c l]|] eqn:Hl; simpl|];
    intros H; inversion H; subst; simpl; auto.
Qed.

Lemma Option_init_config_name a o :
  Option_init a = Return o ->
  config_name o =
    if parse_from_config o
    then option_map derive_config_name (long_option_name o)
    else None.
Proof.
  unfold Option_init.
  destruct (arg_parse_from_config a) eqn:Hp;
    [destruct (arg_long_option_name a) as [[|c l]|] eqn:Hl; simpl|];
    intros H; inversion H; subst; simpl; rewrite ?Hl; reflexivity.
Qed.


(** C5: an [Option] that is to be parsed from the configuration and has
    no long name (none given, or the empty string) is refused with the
    construction error, [ValueError], and so is the registration call that
    builds it; with a long name the construction succeeds. *)
Theorem Option_init_long_name_required (a : Option_args) :
  arg_parse_from_config a = true ->
  if Str.truthy_opt (arg_long_option_name a)
  then exists o, Option_init a = Return o
                 /\ long_option_name o = arg_long_option_name a
                 /\ parse_from_config o = true
  else Option_init a = Raise ValueError
       /\ forall (P : Type) padd (m : OptionManager P),
            add_option padd m a = Raise ValueError.
Proof.
  intros Hp.
  assert (Hinit : Str.truthy_opt (arg_long_option_name a) = false ->
                  Option_init a = Raise ValueError).
  { unfold Option_init. rewrite Hp.
    destruct (arg_long_option_name a) as [[|c l]|]; simpl;
      intros; congruence. }
  destruct (Str.truthy_opt (arg_long_option_name a)) eqn:Ht.
  - unfold Option_init. rewrite Hp.
    destruct (arg_long_option_name a) as [[|c l]|]; simpl in Ht;
      try discriminate.
    simpl. eexists. split; [reflexivity|]. simpl. auto.
  - split; [auto|]. intros P padd m. unfold add_option.
    rewrite Hinit by reflexivity. reflexivity.
Qed.

Lemma Option_init_long_name_required_witness :
  (exists o, Option_init
               {| arg_short_option_name := Some "-x";
                  arg_long_option_name := Some "--my-option";
                  arg_action := None; arg_default := None; arg_type := None;
                  arg_dest := None; arg_nargs := None; arg_const := None;
                  arg_choices := None; arg_callback := None;
                  arg_callback_args := None; arg_callback_kwargs := None;
                  arg_help := None; arg_metavar := None;
                  arg_parse_from_config := true;
                  arg_comma_separated_list := false |} = Return o
             /\ long_option_name o = Some "--my-option"
             /\ parse_from_config o = true)
  /\ Option_init
       {| arg_short_option_name := Some "-x"; arg_long_option_name := None;
          arg_action := None; arg_default := None; arg_type := None;
          arg_dest := None; arg_nargs := None; arg_const := None;
          arg_choices := None; arg_callback := None;
          arg_callback_args := None; arg_callback_kwargs := None;
          arg_help := None; arg_metavar := None;
          arg_parse_from_config := true;
          arg_comma_separated_list := false |} = Raise ValueError.
Proof.
  split.
  - exact (Option_init_long_name_required
             {| arg_short_option_name := Some "-x";
                arg_long_option_name := Some "--my-option";
                arg_action := None; arg_default := None; arg_type := None;
                arg_dest := None; arg_nargs := None; arg_const := None;
                arg_choices := None; arg_callback := None;
                arg_callback_args := None; arg_callback_kwargs := None;
                arg_help := None; arg_metavar := None;
                arg_parse_from_config := true;
                arg_comma_separated_list := false |} eq_refl).
  - exact (proj1 (Option_init_long_name_required
             {| arg_short_option_name := Some "-x";
                arg_long_option_name := None;
                arg_action := None; arg_default := None; arg_type := None;
                arg_dest := None; arg_nargs := None; arg_const := None;
                arg_choices := None; arg_callback := None;
                arg_callback_args := None; arg_callback_kwargs := None;
                arg_help := None; arg_metavar := None;
                arg_parse_from_config := true;
                arg_comma_separated_list := false |} eq_refl)).
Defined.

Example config_name_my_option :
  exists o, Option_init (from_config_args (Some "--my-option")) = Return o
            /\ config_name o = Some "my_option".
Proof. eexists; split; reflexivity. Qed.




(** C9: on every constructed [Option], [config_name] is set exactly when
    [parse_from_config] is true.  Left false, the attribute is not there
    and reading it fails with [AttributeError]; the derived configuration
    key exists only on config-eligible options. *)
Theorem config_name_only_when_eligible (a : Option_args) (o : Option) :
  Option_init a = Return o ->
  parse_from_config o = arg_parse_from_config a
  /\ (parse_from_config o = false <-> config_name o = None)
  /\ (parse_from_config o = false <->
      get_config_name o = Raise AttributeError).
Proof.
  intros Ho.
  pose proof (Option_init_config_name a o Ho) as Hcn.
  destruct (Option_init_fields a o Ho) as (_ & Hlong & Hpa & _).
  split; [exact Hpa|].
  unfold get_config_name.
  destruct (parse_from_config o) eqn:Hp.
  - assert (Hs : exists n, config_name o = Some n).
    { rewrite Hcn. destruct (long_option_name o) as [l|] eqn:Hl.
      - eexists; reflexivity.
      - exfalso. revert Ho. unfold Option_init.
        rewrite <- Hpa, <- Hlong. discriminate. }
    destruct Hs as [n Hn]. rewrite Hn.
    split; split; intros; discriminate.
  - rewrite Hcn. split; split; reflexivity.
Qed.

Lemma config_name_only_when_eligible_witness :
  false = false
  /\ (false = false <-> @None string = None)
  /\ (false = false <->
      get_config_name
        {| short_option_name := Some "-v"; long_option_name := Some "--verbose";
           option_args := ["-v"; "--verbose"];
           option_kwargs :=
             {| action := Some "count"; default := None; type := None;
                dest := None; callback := None; callback_args := None;
                callback_kwargs := None; help := None; metavar := None |};
           parse_from_config := false;
           comma_separated_list := false;
           config_name := None |} = Raise AttributeError).
Proof.
  exact (config_name_only_when_eligible
           {| arg_short_option_name := Some "-v";
              arg_long_option_name := Some "--verbose";
              arg_action := Some "count"; arg_default := None;
              arg_type := None; arg_dest := None; arg_nargs := None;
              arg_const := None; arg_choices := None; arg_callback := None;
              arg_callback_args := None; arg_callback_kwargs := None;
              arg_help := None; arg_metavar := None;
              arg_parse_from_config := false;
              arg_comma_separated_list := false |} _ eq_refl).
Defined.

(** ** Paths *)

Example commonprefix_examples :
  posixpath.commonprefix ["/a/b"; "/a/c"] = "/a/"
  /\ posixpath.commonprefix ["/a/bc"; "/a/bd"; "/a/b"] = "/a/b"
  /\ posixpath.commonprefix ["a"; "/b"] = "".
Proof. repeat split. Qed.

Example normpath_examples :
  posixpath.normpath "/a/./b/../c//d/" = "/a/c/d"
  /\ posixpath.normpath "//a/.." = "//"
  /\ posixpath.normpath "///a/../.." = "/"
  /\ posixpath.normpath "a/../../b" = "../b"
  /\ posixpath.normpath "" = ".".
Proof. repeat split. Qed.

Example split_examples :
  posixpath.split "/a/b" = ("/a", "b") /\ posixpath.split "/a" = ("/", "a")
  /\ posixpath.split "/" = ("/", "") /\ posixpath.split "//" = ("//", "")
  /\ posixpath.split "a//b" = ("a", "b").
Proof. repeat split. Qed.

Lemma str_app_cons a s t : String a s +:+ t = String a (s +:+ t).
Proof. reflexivity. Qed.

Lemma str_app_nil_l s : "" +:+ s = s.
Proof. reflexivity. Qed.

Lemma str_app_nil_r s : s +:+ "" = s.
Proof. induction s as [|a s IH]; [reflexivity|]. rewrite str_app_cons, IH. reflexivity. Qed.

Lemma str_app_assoc s t u : (s +:+ t) +:+ u = s +:+ (t +:+ u).
Proof.
  induction s as [|a s IH]; [reflexivity|]. rewrite !str_app_cons, IH. reflexivity.
Qed.

Lemma str_app_length s t :
  String.length (s +:+ t) = String.length s + String.length t.
Proof.
  induction s as [|a s IH]; [reflexivity|]. rewrite str_app_cons. simpl.
  rewrite IH. reflexivity.
Qed.

Lemma take_app h t : posixpath.take (String.length h) (h +:+ t) = h.
Proof.
  induction h as [|a h IH]; [destruct t; reflexivity|].
  rewrite str_app_cons. simpl. rewrite IH. reflexivity.
Qed.

Lemma drop_app h t : posixpath.drop (String.length h) (h +:+ t) = t.
Proof.
  induction h as [|a h IH]; [destruct t; reflexivity|].
  rewrite str_app_cons. simpl. exact IH.
Qed.

Lemma repeat_length c n : String.length (Str.repeat c n) = n.
Proof. induction n as [|n IH]; simpl; congruence. Qed.

Lemma repeat_snoc c n : Str.repeat c (S n) = Str.repeat c n +:+ String c "".
Proof.
  induction n as [|n IH]; [reflexivity|].
  change (Str.repeat c (S (S n))) with (String c (Str.repeat c (S n))).
  rewrite IH at 1. reflexivity.
Qed.

Lemma eqc_refl a : Str.eqc a a = true.
Proof. destruct (eqc_spec a a); congruence. Qed.

Lemma rfind_absent c s : Str.contains c s = false -> posixpath.rfind c s = (-1)%Z.
Proof.
  induction s as [|a s IH]; [reflexivity|]. simpl.
  intros H. apply orb_false_iff in H as [Ha Hs].
  rewrite IH by assumption. simpl. rewrite Ha. reflexivity.
Qed.

Lemma rfind_last c h t :
  Str.contains c t = false ->
  posixpath.rfind c (h +:+ String c t) = Z.of_nat (String.length h).
Proof.
  intros Ht. induction h as [|a h IH].
  - rewrite str_app_nil_l. simpl. rewrite rfind_absent by assumption. simpl.
    rewrite eqc_refl. reflexivity.
  - rewrite str_app_cons. simpl posixpath.rfind. rewrite IH.
    destruct (0 <=? Z.of_nat (String.length h))%Z eqn:E.
    + simpl String.length. lia.
    + apply Z.leb_gt in E. lia.
Qed.

Lemma eqb_repeat c s :
  String.eqb s (Str.repeat c (String.length s)) = only c s.
Proof.
  induction s as [|a s IH]; [reflexivity|]. simpl. rewrite IH.
  unfold Str.eqc. destruct (Ascii.eqb a c); reflexivity.
Qed.

Lemma only_repeat c n : only c (Str.repeat c n) = true.
Proof. induction n as [|n IH]; simpl; [reflexivity|]. rewrite eqc_refl. exact IH. Qed.

Lemma only_app c s t : only c (s +:+ t) = only c s && only c t.
Proof.
  induction s as [|a s IH]; [reflexivity|]. rewrite str_app_cons. simpl.
  rewrite IH. apply andb_assoc.
Qed.

Lemma only_endswith c s : only c s = true -> Str.truthy s = true -> Str.endswith s c = true.
Proof.
  induction s as [|a s IH]; [discriminate|]. simpl.
  intros H _. apply andb_true_iff in H as [Ha Hs].
  destruct s as [|b s']; [exact Ha|]. apply IH; [exact Hs|reflexivity].
Qed.

Lemma endswith_app s t c :
  Str.truthy t = true -> Str.endswith (s +:+ t) c = Str.endswith t c.
Proof.
  intros Ht. induction s as [|a s IH]; [reflexivity|].
  rewrite str_app_cons.
  destruct (s +:+ t) as [|b r] eqn:E.
  - destruct s; [|discriminate]. rewrite str_app_nil_l in E. subst t. discriminate.
  - exact IH.
Qed.

Lemma endswith_absent c s : Str.contains c s = false -> Str.endswith s c = false.
Proof.
  induction s as [|a s IH]; [reflexivity|]. simpl.
  intros H. apply orb_false_iff in H as [Ha Hs].
  destruct s; [exact Ha|]. apply IH. exact Hs.
Qed.

Lemma rstrip_snoc chars h c :
  Str.contains c chars = true ->
  Str.rstrip chars (h +:+ String c "") = Str.rstrip chars h.
Proof.
  intros Hc. induction h as [|a h IH].
  - rewrite str_app_nil_l. simpl. rewrite Hc. reflexivity.
  - rewrite str_app_cons, !rstrip_cons, IH. reflexivity.
Qed.

(** [split] on a path whose last slash is known. *)
Lemma split_at_last_sep h t :
  Str.contains posixpath.sep t = false ->
  posixpath.split (h +:+ String posixpath.sep t) =
    (if only posixpath.sep h then h +:+ "/" else Str.rstrip "/" h, t).
Proof.
  intros Ht. unfold posixpath.split.
  rewrite rfind_last by assumption.
  replace (Z.to_nat (Z.of_nat (String.length h) + 1))
    with (String.length (h +:+ "/"))
    by (rewrite str_app_length; simpl; lia).
  replace (h +:+ String posixpath.sep t) with ((h +:+ "/") +:+ t)
    by (rewrite str_app_assoc; reflexivity).
  rewrite take_app, drop_app, eqb_repeat, only_app.
  change (only posixpath.sep "/") with true. rewrite andb_true_r.
  assert (Htr : Str.truthy (h +:+ "/") = true) by (destruct h; reflexivity).
  rewrite Htr. simpl.
  destruct (only posixpath.sep h); simpl; [reflexivity|].
  rewrite rstrip_snoc by reflexivity. reflexivity.
Qed.

Lemma concat_snoc cs c :
  cs <> [] ->
  String.concat "/" (cs ++ [c]) = String.concat "/" cs +:+ String posixpath.sep c.
Proof.
  induction cs as [|x cs IH]; [congruence|]. intros _.
  destruct cs as [|y cs'].
  - reflexivity.
  - change (String.concat "/" ((x :: y :: cs') ++ [c]))
      with (x +:+ "/" +:+ String.concat "/" ((y :: cs') ++ [c])).
    rewrite IH by discriminate.
    change (String.concat "/" (x :: y :: cs'))
      with (x +:+ "/" +:+ String.concat "/" (y :: cs')).
    rewrite !str_app_assoc. reflexivity.
Qed.

Lemma concat_truthy cs :
  cs <> [] -> Forall component cs -> Str.truthy (String.concat "/" cs) = true.
Proof.
  destruct cs as [|x cs]; [congruence|]. intros _ H.
  inversion H as [|? ? [Hx _] _]; subst.
  destruct x; [discriminate|]. destruct cs; reflexivity.
Qed.

Lemma concat_endswith cs :
  cs <> [] -> Forall component cs ->
  Str.endswith (String.concat "/" cs) posixpath.sep = false.
Proof.
  induction cs as [|x cs IH]; [congruence|]. intros _ H.
  inversion H as [|? ? [Hx Hs] Hcs]; subst.
  destruct cs as [|y cs'].
  - simpl. apply endswith_absent. exact Hs.
  - change (String.concat "/" (x :: y :: cs'))
      with (x +:+ String posixpath.sep (String.concat "/" (y :: cs'))).
    rewrite endswith_app by reflexivity.
    pose proof (concat_truthy (y :: cs') ltac:(discriminate) Hcs) as Htr.
    destruct (String.concat "/" (y :: cs')) as [|b r] eqn:E; [discriminate|].
    change (Str.endswith (String b r) posixpath.sep = false).
    apply IH; [discriminate|exact Hcs].
Qed.

Lemma split_root k :
  1 <= k ->
  posixpath.split (Str.repeat posixpath.sep k) = (Str.repeat posixpath.sep k, "").
Proof.
  intros Hk. destruct k as [|k]; [lia|].
  rewrite repeat_snoc.
  rewrite (split_at_last_sep (Str.repeat posixpath.sep k) "") by reflexivity.
  rewrite only_repeat. reflexivity.
Qed.

Lemma split_mkpath_snoc k cs c :
  1 <= k -> Forall component cs -> component c ->
  posixpath.split (mkpath k (cs ++ [c])) = (mkpath k cs, c).
Proof.
  intros Hk Hcs [Hc Hs]. unfold mkpath.
  destruct cs as [|x cs'] eqn:Ecs.
  - destruct k as [|k]; [lia|]. simpl app. simpl String.concat.
    rewrite repeat_snoc, str_app_assoc.
    change (String posixpath.sep "" +:+ c) with (String posixpath.sep c).
    rewrite split_at_last_sep by assumption.
    rewrite only_repeat, str_app_nil_r. reflexivity.
  - rewrite <- Ecs in *. assert (Hne : cs <> []) by (subst; discriminate).
    rewrite concat_snoc, <- str_app_assoc by assumption.
    rewrite split_at_last_sep by assumption.
    pose proof (concat_endswith cs Hne Hcs) as He.
    pose proof (concat_truthy cs Hne Hcs) as Htr.
    assert (Hend : Str.endswith
                     (Str.repeat posixpath.sep k +:+ String.concat "/" cs)
                     posixpath.sep = false)
      by (rewrite endswith_app; assumption).
    destruct (only posixpath.sep _) eqn:Eo.
    + apply only_endswith in Eo; [congruence|].
      destruct k; [lia|reflexivity].
    + rewrite (rstrip_no_trailing posixpath.sep) by exact Hend. reflexivity.
Qed.

Lemma inits_snoc {A : Type} (l : list A) (x : A) :
  inits (l ++ [x]) = inits l ++ [l ++ [x]].
Proof.
  induction l as [|y l IH]; [reflexivity|].
  simpl. rewrite IH, map_app. reflexivity.
Qed.

Lemma ancestors_nil k : ancestors k [] = [mkpath k []].
Proof. reflexivity. Qed.

Lemma ancestors_snoc k cs c :
  ancestors k (cs ++ [c]) = mkpath k (cs ++ [c]) :: ancestors k cs.
Proof.
  unfold ancestors. rewrite inits_snoc, map_app, rev_app_distr. reflexivity.
Qed.

Lemma mkpath_nil k : mkpath k [] = Str.repeat posixpath.sep k.
Proof. unfold mkpath. simpl String.concat. apply str_app_nil_r. Qed.

Lemma mkpath_snoc_length k cs c :
  component c ->
  String.length (mkpath k cs) < String.length (mkpath k (cs ++ [c])).
Proof.
  intros [Hc _]. unfold mkpath. rewrite !str_app_length.
  destruct cs as [|x cs'].
  - simpl. destruct c; [discriminate|]. simpl. lia.
  - rewrite concat_snoc by discriminate. rewrite str_app_length. simpl. lia.
Qed.

Lemma ancestors_length_le k cs d :
  Forall component cs -> In d (ancestors k cs) ->
  String.length d <= String.length (mkpath k cs).
Proof.
  induction cs as [|c cs IH] using rev_ind; intros Hcs Hd.
  - rewrite ancestors_nil in Hd. destruct Hd as [<-|[]]. lia.
  - apply Forall_app in Hcs as [Hcs Hc]. inversion Hc; subst.
    rewrite ancestors_snoc in Hd. destruct Hd as [<-|Hd]; [lia|].
    pose proof (mkpath_snoc_length k cs c ltac:(assumption)).
    specialize (IH Hcs Hd). lia.
Qed.

Lemma ancestors_NoDup k cs : Forall component cs -> List.NoDup (ancestors k cs).
Proof.
  induction cs as [|c cs IH] using rev_ind; intros Hcs.
  - rewrite ancestors_nil. constructor; [intros []|constructor].
  - apply Forall_app in Hcs as [Hcs Hc]. inversion Hc; subst.
    rewrite ancestors_snoc. constructor; [|auto].
    intros Hin. apply (ancestors_length_le k cs _ Hcs) in Hin.
    pose proof (mkpath_snoc_length k cs c ltac:(assumption)). lia.
Qed.

Lemma ancestors_head k cs : List.hd_error (ancestors k cs) = Some (mkpath k cs).
Proof.
  destruct cs as [|c cs] using rev_ind; [reflexivity|].
  rewrite ancestors_snoc. reflexivity.
Qed.

Lemma ancestors_last k cs :
  List.last (ancestors k cs) "" = Str.repeat posixpath.sep k.
Proof.
  induction cs as [|c cs IH] using rev_ind.
  - rewrite ancestors_nil. simpl. apply mkpath_nil.
  - rewrite ancestors_snoc.
    destruct (ancestors k cs) as [|d ds] eqn:E; [|exact IH].
    apply (f_equal (@length string)) in E. unfold ancestors in E.
    rewrite length_rev, length_map in E. destruct cs; discriminate.
Qed.

(** The upward walk from a normalised absolute path yields the candidates
    of every ancestor, the nearest first. *)
Lemma walk_up_mkpath w self k cs a t :
  1 <= k -> Forall component cs ->
  walk_up w self (mkpath k cs) (String a t)
  = flat_map (candidates_in w self) (ancestors k cs).
Proof.
  intros Hk. revert a t.
  induction cs as [|c cs IH] using rev_ind; intros a t Hcs.
  - simp walk_up. rewrite mkpath_nil, split_root by assumption.
    simpl fst; simpl snd. simp walk_up.
    rewrite ancestors_nil, mkpath_nil. simpl. reflexivity.
  - apply Forall_app in Hcs as [Hcs Hc]. inversion Hc as [|? ? Hc' _]; subst.
    simp walk_up. rewrite split_mkpath_snoc by assumption.
    simpl fst; simpl snd.
    destruct Hc' as [Htr Hs]. destruct c as [|b r]; [discriminate|].
    rewrite IH by assumption.
    rewrite ancestors_snoc. reflexivity.
Qed.

(** *** normpath *)

Lemma split_on_nonempty c s : posixpath.split_on c s <> [].
Proof.
  destruct s as [|a s]; simpl; [discriminate|].
  destruct (posixpath.split_on c s); [discriminate|].
  destruct (Str.eqc a c); discriminate.
Qed.

Lemma split_on_sep c s :
  posixpath.split_on c (String c s) = "" :: posixpath.split_on c s.
Proof.
  simpl. pose proof (split_on_nonempty c s).
  destruct (posixpath.split_on c s); [congruence|].
  rewrite eqc_refl. reflexivity.
Qed.

Lemma split_on_absent c s :
  Str.contains c s = false -> posixpath.split_on c s = [s].
Proof.
  induction s as [|a s IH]; [reflexivity|]. simpl.
  intros H. apply orb_false_iff in H as [Ha Hs].
  rewrite IH, Ha by assumption. reflexivity.
Qed.

Lemma split_on_app c x s :
  Str.contains c x = false ->
  posixpath.split_on c (x +:+ String c s) = x :: posixpath.split_on c s.
Proof.
  induction x as [|a x IH].
  - intros _. rewrite str_app_nil_l. apply split_on_sep.
  - simpl Str.contains. intros H. apply orb_false_iff in H as [Ha Hx].
    rewrite str_app_cons. simpl posixpath.split_on. rewrite IH, Ha by assumption.
    reflexivity.
Qed.

Lemma split_on_concat cs :
  cs <> [] -> Forall component cs ->
  posixpath.split_on posixpath.sep (String.concat "/" cs) = cs.
Proof.
  induction cs as [|x cs IH]; [congruence|]. intros _ H.
  inversion H as [|? ? [Hx Hs] Hcs]; subst.
  destruct cs as [|y cs'].
  - simpl. apply split_on_absent. exact Hs.
  - change (String.concat "/" (x :: y :: cs'))
      with (x +:+ String posixpath.sep (String.concat "/" (y :: cs'))).
    rewrite split_on_app by exact Hs. rewrite IH; [reflexivity|discriminate|exact Hcs].
Qed.

Lemma split_on_components c s :
  Forall (fun x => Str.contains c x = false) (posixpath.split_on c s).
Proof.
  induction s as [|a s IH]; simpl; [repeat constructor|].
  pose proof (split_on_nonempty c s) as Hne.
  destruct (posixpath.split_on c s) as [|h t].
  - congruence.
  - inversion IH; subst.
    destruct (Str.eqc a c) eqn:Ha; repeat constructor; auto.
    simpl. rewrite Ha. assumption.
Qed.

Lemma name_eqb c :
  name c ->
  String.eqb c "" = false /\ String.eqb c "." = false
  /\ String.eqb c ".." = false.
Proof.
  intros [[Htr _] [Hd Hdd]]. repeat split; apply String.eqb_neq; auto.
  intros ->. discriminate.
Qed.

Lemma normpath_step_name i acc c :
  name c -> posixpath.normpath_step i acc c = acc ++ [c].
Proof.
  intros Hc. destruct (name_eqb c Hc) as (H1 & H2 & H3).
  unfold posixpath.normpath_step. rewrite H1, H2, H3. reflexivity.
Qed.

Lemma normpath_fold_names i cs acc :
  Forall name cs ->
  fold_left (posixpath.normpath_step i) cs acc = acc ++ cs.
Proof.
  revert acc. induction cs as [|c cs IH]; intros acc H.
  - simpl. rewrite List.app_nil_r. reflexivity.
  - inversion H; subst. simpl. rewrite normpath_step_name by assumption.
    rewrite IH by assumption. rewrite <- List.app_assoc. reflexivity.
Qed.

Lemma last_name acc : Forall name acc -> List.last acc "" <> "..".
Proof.
  induction acc as [|x acc IH]; [discriminate|]. intros H.
  inversion H as [|? ? Hx Hacc]; subst.
  destruct acc as [|y acc']; [|exact (IH Hacc)].
  simpl. destruct Hx as (_ & _ & Hdd). exact Hdd.
Qed.

Lemma removelast_Forall {A : Type} (Q : A -> Prop) (l : list A) :
  Forall Q l -> Forall Q (removelast l).
Proof.
  induction l as [|x l IH]; [auto|]. intros H. inversion H; subst.
  simpl. destruct l; [constructor|]. constructor; auto.
Qed.

(** On an absolute path the loop of [normpath] keeps nothing but names,
    whatever the components. *)
Lemma normpath_step_keeps_names i acc c :
  1 <= i -> Forall name acc -> Str.contains posixpath.sep c = false ->
  Forall name (posixpath.normpath_step i acc c).
Proof.
  intros Hi Hacc Hc. unfold posixpath.normpath_step.
  destruct (String.eqb_spec c "") as [->|Hne]; [exact Hacc|].
  destruct (String.eqb_spec c ".") as [->|Hd]; [exact Hacc|]. simpl.
  destruct (String.eqb_spec c "..") as [->|Hdd]; simpl.
  - replace (i =? 0) with false by (symmetry; apply Nat.eqb_neq; lia). simpl.
    destruct (length acc =? 0) eqn:El; simpl; [exact Hacc|].
    destruct (String.eqb_spec (List.last acc "") "..") as [E|_].
    + exfalso. exact (last_name acc Hacc E).
    + apply removelast_Forall. exact Hacc.
  - apply Forall_app. split; [exact Hacc|]. repeat constructor; auto.
    destruct c; [congruence|reflexivity].
Qed.

Lemma normpath_fold_keeps_names i cs acc :
  1 <= i -> Forall name acc ->
  Forall (fun c => Str.contains posixpath.sep c = false) cs ->
  Forall name (fold_left (posixpath.normpath_step i) cs acc).
Proof.
  intros Hi. revert acc. induction cs as [|c cs IH]; intros acc Hacc Hcs.
  - exact Hacc.
  - inversion Hcs; subst. simpl. apply IH; [|assumption].
    apply normpath_step_keeps_names; assumption.
Qed.

Lemma concat_startswith cs :
  Forall component cs -> Str.startswith (String.concat "/" cs) "/" = false.
Proof.
  intros H. destruct cs as [|x cs]; [reflexivity|].
  inversion H as [|? ? [Hx Hs] _]; subst.
  destruct x as [|a x]; [discriminate|].
  simpl in Hs. apply orb_false_iff in Hs as [Ha _].
  assert (E : exists r, String.concat "/" (String a x :: cs) = String a r).
  { destruct cs; simpl; eexists; reflexivity. }
  destruct E as [r ->]. unfold posixpath.sep in Ha. simpl. rewrite Ha.
  reflexivity.
Qed.

Lemma name_component c : name c -> component c.
Proof. intros [H _]. exact H. Qed.

Lemma names_components cs : Forall name cs -> Forall component cs.
Proof. intros H. eapply Forall_impl; [exact H|]. exact name_component. Qed.

Lemma mkpath_1 cs : mkpath 1 cs = String posixpath.sep (String.concat "/" cs).
Proof. reflexivity. Qed.

Lemma mkpath_2 cs :
  mkpath 2 cs = String posixpath.sep (String posixpath.sep (String.concat "/" cs)).
Proof. reflexivity. Qed.

Lemma startswith_sep_cons s p :
  Str.startswith (String posixpath.sep s) (String "/" p) = Str.startswith s p.
Proof. reflexivity. Qed.

Lemma startswith_nil s : Str.startswith s "" = true.
Proof. destruct s; reflexivity. Qed.

Lemma normpath_step_empty i acc : posixpath.normpath_step i acc "" = acc.
Proof. reflexivity. Qed.

(** [normpath] leaves a normalised absolute path as it is. *)
Lemma normpath_mkpath k cs :
  k = 1 \/ k = 2 -> Forall name cs ->
  posixpath.normpath (mkpath k cs) = mkpath k cs.
Proof.
  intros Hk Hcs. pose proof (names_components cs Hcs) as Hcomp.
  pose proof (concat_startswith cs Hcomp) as Hst.
  assert (Hfold : forall i,
             fold_left (posixpath.normpath_step i)
               (posixpath.split_on posixpath.sep (String.concat "/" cs)) []
             = cs).
  { intros i. destruct cs as [|x cs'] eqn:E; [reflexivity|].
    rewrite split_on_concat by (auto; discriminate).
    apply (normpath_fold_names i (x :: cs') []). exact Hcs. }
  unfold posixpath.normpath.
  destruct Hk as [-> | ->].
  - rewrite mkpath_1. cbn [Str.truthy negb].
    rewrite !startswith_sep_cons, Hst, startswith_nil. cbn [andb].
    rewrite split_on_sep. cbn [fold_left].
    rewrite normpath_step_empty, Hfold. reflexivity.
  - rewrite mkpath_2. cbn [Str.truthy negb].
    rewrite !startswith_sep_cons, Hst, !startswith_nil. cbn [andb negb].
    rewrite !split_on_sep. cbn [fold_left].
    rewrite !normpath_step_empty, Hfold. reflexivity.
Qed.

(** [normpath] turns every absolute path into a normalised one. *)
Lemma normpath_shape p :
  posixpath.isabs p = true ->
  exists k cs, (k = 1 \/ k = 2) /\ Forall name cs
               /\ posixpath.normpath p = mkpath k cs.
Proof.
  intros Hp. destruct p as [|a p]; [discriminate|].
  unfold posixpath.normpath, posixpath.isabs in *. rewrite Hp.
  change (Str.truthy (String a p)) with true. cbn [negb].
  destruct (Str.startswith (String a p) "//"
            && negb (Str.startswith (String a p) "///")).
  - exists 2, (fold_left (posixpath.normpath_step 2)
                 (posixpath.split_on posixpath.sep (String a p)) []).
    split; [auto|]. split; [|reflexivity].
    apply normpath_fold_keeps_names; [lia|constructor|].
    apply split_on_components.
  - exists 1, (fold_left (posixpath.normpath_step 1)
                 (posixpath.split_on posixpath.sep (String a p)) []).
    split; [auto|]. split; [|reflexivity].
    apply normpath_fold_keeps_names; [lia|constructor|].
    apply split_on_components.
Qed.

Lemma abspath_shape cwd p :
  posixpath.isabs cwd = true ->
  exists k cs, (k = 1 \/ k = 2) /\ Forall name cs
               /\ posixpath.abspath cwd p = mkpath k cs.
Proof.
  intros Hcwd. unfold posixpath.abspath.
  destruct (posixpath.isabs p) eqn:Hp; [apply normpath_shape; exact Hp|].
  apply normpath_shape. unfold posixpath.join. unfold posixpath.isabs in Hp.
  rewrite Hp. destruct cwd as [|a cwd]; [discriminate|].
  unfold posixpath.isabs in *. simpl in Hcwd.
  rewrite startswith_nil in Hcwd.
  destruct (_ || _); rewrite str_app_cons; simpl;
    rewrite startswith_nil; exact Hcwd.
Qed.

(** Joining a name to a normalised absolute directory, and resolving the
    outcome, gives the path one component longer. *)
Lemma join_mkpath k cs n :
  1 <= k -> Forall component cs -> component n ->
  posixpath.join (mkpath k cs) n = mkpath k (cs ++ [n]).
Proof.
  intros Hk Hcs [Hn Hs]. unfold posixpath.join.
  assert (Hst : Str.startswith n "/" = false).
  { destruct n as [|a n]; [discriminate|]. simpl in *.
    apply orb_false_iff in Hs as [Ha _]. unfold posixpath.sep in Ha.
    rewrite Ha. reflexivity. }
  rewrite Hst.
  assert (Htr : Str.truthy (mkpath k cs) = true)
    by (destruct k; [lia|reflexivity]).
  rewrite Htr. simpl negb. simpl orb.
  destruct cs as [|x cs'] eqn:E.
  - rewrite mkpath_nil.
    assert (He : Str.endswith (Str.repeat posixpath.sep k) posixpath.sep
                 = true).
    { apply only_endswith; [apply only_repeat|].
      destruct k; [lia|reflexivity]. }
    rewrite He. reflexivity.
  - rewrite <- E in *. assert (Hne : cs <> []) by (subst; discriminate).
    unfold mkpath. rewrite endswith_app by (apply concat_truthy; assumption).
    rewrite concat_endswith by assumption.
    rewrite concat_snoc by assumption. rewrite !str_app_assoc. reflexivity.
Qed.

Lemma isabs_mkpath k cs : 1 <= k -> posixpath.isabs (mkpath k cs) = true.
Proof.
  intros Hk. destruct k as [|k]; [lia|].
  unfold posixpath.isabs, mkpath. cbn [Str.repeat].
  rewrite str_app_cons, startswith_sep_cons. apply startswith_nil.
Qed.

Lemma abspath_join_mkpath cwd k cs n :
  k = 1 \/ k = 2 -> Forall name cs -> name n ->
  posixpath.abspath cwd (posixpath.join (mkpath k cs) n)
  = posixpath.join (mkpath k cs) n.
Proof.
  intros Hk Hcs Hn.
  rewrite join_mkpath by
    (try apply names_components; try apply name_component; auto; lia).
  unfold posixpath.abspath.
  assert (Habs : posixpath.isabs (mkpath k (cs ++ [n])) = true)
    by (apply isabs_mkpath; lia).
  rewrite Habs. apply normpath_mkpath; [exact Hk|].
  apply Forall_app. split; [exact Hcs|]. constructor; [exact Hn|constructor].
Qed.

(** *** commonprefix *)

Lemma leb_refl s : String.leb s s = true.
Proof.
  unfold String.leb.
  assert (E : String.compare s s = Eq); [|rewrite E; reflexivity].
  induction s as [|a s IH]; [reflexivity|]. simpl.
  unfold Ascii.compare. rewrite N.compare_refl. exact IH.
Qed.

Lemma leb_trans s1 s2 s3 :
  String.leb s1 s2 = true -> String.leb s2 s3 = true -> String.leb s1 s3 = true.
Proof.
  intros H12 H23. apply Is_true_true.
  apply Is_true_true in H12, H23.
  exact (transitivity (R := String.le) H12 H23).
Qed.

Lemma ltb_leb x y : String.ltb x y = true -> String.leb x y = true.
Proof.
  unfold String.ltb, String.leb. destruct (String.compare x y); congruence.
Qed.

Lemma not_ltb_leb x y : String.ltb x y = false -> String.leb y x = true.
Proof.
  unfold String.ltb, String.leb. rewrite (String.compare_antisym y x).
  destruct (String.compare x y); simpl; congruence.
Qed.

Lemma min_str_le m acc : String.leb (posixpath.min_str acc m) acc = true.
Proof.
  revert acc. induction m as [|x m IH]; intros acc; [apply leb_refl|].
  simpl. eapply leb_trans; [apply IH|].
  destruct (String.ltb x acc) eqn:E; [apply ltb_leb; exact E|apply leb_refl].
Qed.

Lemma max_str_ge m acc : String.leb acc (posixpath.max_str acc m) = true.
Proof.
  revert acc. induction m as [|x m IH]; intros acc; [apply leb_refl|].
  simpl. eapply leb_trans; [|apply IH].
  destruct (String.ltb acc x) eqn:E; [apply ltb_leb; exact E|apply leb_refl].
Qed.

Lemma min_str_lower m acc x :
  In x (acc :: m) -> String.leb (posixpath.min_str acc m) x = true.
Proof.
  revert acc. induction m as [|y m IH]; intros acc Hx.
  - destruct Hx as [<-|[]]. apply leb_refl.
  - simpl. destruct Hx as [<-|[<-|Hx]].
    + eapply leb_trans; [apply min_str_le|].
      destruct (String.ltb y acc) eqn:E; [apply ltb_leb; exact E|apply leb_refl].
    + eapply leb_trans; [apply min_str_le|].
      destruct (String.ltb y acc) eqn:E; [apply leb_refl|].
      apply not_ltb_leb. exact E.
    + apply IH. right. exact Hx.
Qed.

Lemma max_str_upper m acc x :
  In x (acc :: m) -> String.leb x (posixpath.max_str acc m) = true.
Proof.
  revert acc. induction m as [|y m IH]; intros acc Hx.
  - destruct Hx as [<-|[]]. apply leb_refl.
  - simpl. destruct Hx as [<-|[<-|Hx]].
    + eapply leb_trans; [|apply max_str_ge].
      destruct (String.ltb acc y) eqn:E; [apply ltb_leb; exact E|apply leb_refl].
    + eapply leb_trans; [|apply max_str_ge].
      destruct (String.ltb acc y) eqn:E; [apply leb_refl|].
      apply not_ltb_leb. exact E.
    + apply IH. right. exact Hx.
Qed.

Lemma min_str_in m acc : In (posixpath.min_str acc m) (acc :: m).
Proof.
  revert acc. induction m as [|y m IH]; intros acc; [left; reflexivity|].
  simpl. destruct (IH (if String.ltb y acc then y else acc)) as [E|Hin].
  - rewrite <- E. destruct (String.ltb y acc); auto.
  - right. right. exact Hin.
Qed.

Lemma max_str_in m acc : In (posixpath.max_str acc m) (acc :: m).
Proof.
  revert acc. induction m as [|y m IH]; intros acc; [left; reflexivity|].
  simpl. destruct (IH (if String.ltb acc y then y else acc)) as [E|Hin].
  - rewrite <- E. destruct (String.ltb acc y); auto.
  - right. right. exact Hin.
Qed.

Lemma leb_cons a s b t :
  String.leb (String a s) (String b t) = true ->
  Ascii.compare a b = Lt \/ (a = b /\ String.leb s t = true).
Proof.
  unfold String.leb. simpl.
  destruct (Ascii.compare a b) eqn:E; [|auto|discriminate].
  apply Ascii.compare_eq_iff in E. auto.
Qed.

Lemma ascii_compare_refl a : Ascii.compare a a = Eq.
Proof. unfold Ascii.compare. apply N.compare_refl. Qed.

Lemma eqc_true a b : Str.eqc a b = true -> a = b.
Proof. destruct (eqc_spec a b); congruence. Qed.

(** With [s1 <= s2], the scan of [commonprefix] reads [s2] within its
    length. *)
Lemma common_scan_in_range s1 s2 :
  String.leb s1 s2 = true -> scan_in_range s1 s2 = true.
Proof.
  revert s2. induction s1 as [|a s1 IH]; intros [|b s2] H; try reflexivity.
  - discriminate.
  - simpl. destruct (Str.eqc a b) eqn:E; [|reflexivity].
    apply eqc_true in E. subst b.
    destruct (leb_cons _ _ _ _ H) as [Hlt|[_ Hle]]; [|apply IH; exact Hle].
    rewrite ascii_compare_refl in Hlt. discriminate.
Qed.

Lemma common_scan_prefix_l s1 s2 :
  Str.startswith s1 (posixpath.common_scan s1 s2) = true.
Proof.
  revert s2. induction s1 as [|a s1 IH]; intros [|b s2]; try reflexivity.
  simpl. destruct (Str.eqc a b); [|reflexivity].
  simpl. rewrite eqc_refl. apply IH.
Qed.

(** What lies between [s1] and [s2] in the order of strings starts with
    what the scan of [s1] and [s2] returns. *)
Lemma common_scan_between s1 s2 x :
  String.leb s1 x = true -> String.leb x s2 = true ->
  Str.startswith x (posixpath.common_scan s1 s2) = true.
Proof.
  revert s2 x. induction s1 as [|a s1 IH]; intros s2 x H1 H2.
  - simpl. apply startswith_nil.
  - destruct s2 as [|b s2]; [simpl; apply startswith_nil|].
    simpl. destruct (Str.eqc a b) eqn:E; [|apply startswith_nil].
    apply eqc_true in E. subst b.
    destruct x as [|c x]; [discriminate|].
    destruct (leb_cons _ _ _ _ H1) as [Hac|[-> Hs1]];
      destruct (leb_cons _ _ _ _ H2) as [Hca|[Heq Hs2]].
    + rewrite Ascii.compare_antisym, Hca in Hac. discriminate.
    + subst c. rewrite ascii_compare_refl in Hac. discriminate.
    + rewrite ascii_compare_refl in Hca. discriminate.
    + simpl. rewrite eqc_refl. apply IH; assumption.
Qed.

Lemma common_scan_greatest s1 s2 q :
  Str.startswith s1 q = true -> Str.startswith s2 q = true ->
  Str.startswith (posixpath.common_scan s1 s2) q = true.
Proof.
  revert s1 s2. induction q as [|c q IH]; intros s1 s2 H1 H2.
  - apply startswith_nil.
  - destruct s1 as [|a s1]; [discriminate|].
    destruct s2 as [|b s2]; [discriminate|].
    simpl in H1, H2. apply andb_true_iff in H1 as [Ha H1].
    apply andb_true_iff in H2 as [Hb H2].
    apply eqc_true in Ha, Hb. subst a b.
    simpl. rewrite eqc_refl. simpl. rewrite eqc_refl. apply IH; assumption.
Qed.

(** What [commonprefix] computes: the longest string that every path of
    the list starts with, character by character. *)
Lemma commonprefix_longest (m : list string) :
  (forall x, In x m -> Str.startswith x (posixpath.commonprefix m) = true)
  /\ (forall q, m <> [] ->
                (forall x, In x m -> Str.startswith x q = true) ->
                Str.startswith (posixpath.commonprefix m) q = true).
Proof.
  destruct m as [|s m]; [split; [intros x []|congruence]|].
  unfold posixpath.commonprefix. split.
  - intros x Hx. apply common_scan_between;
      [apply min_str_lower|apply max_str_upper]; exact Hx.
  - intros q _ Hq. apply common_scan_greatest; apply Hq;
      [apply min_str_in|apply max_str_in].
Qed.

Lemma commonprefix_longest_witness :
  Str.startswith (posixpath.commonprefix ["/a/bc"; "/a/bd"]) "/a/b" = true.
Proof.
  refine (proj2 (commonprefix_longest ["/a/bc"; "/a/bd"]) "/a/b" _ _).
  - discriminate.
  - intros x [<-|[<-|[]]]; reflexivity.
Defined.

Lemma commonprefix_in_range s m :
  scan_in_range (posixpath.min_str s m) (posixpath.max_str s m) = true.
Proof.
  apply common_scan_in_range.
  eapply leb_trans; [apply min_str_le|apply max_str_ge].
Qed.

(** ** ConfigFileFinder *)

Lemma inits_Forall {A : Type} (Q : A -> Prop) (l p : list A) :
  Forall Q l -> In p (inits l) -> Forall Q p.
Proof.
  revert p. induction l as [|x l IH]; intros p Hl Hp.
  - destruct Hp as [<-|[]]. constructor.
  - inversion Hl; subst. destruct Hp as [<-|Hp]; [constructor|].
    apply in_map_iff in Hp as (q & <- & Hq). constructor; auto.
Qed.

Lemma ancestors_mkpath k cs d :
  Forall name cs -> In d (ancestors k cs) ->
  exists p, d = mkpath k p /\ Forall name p.
Proof.
  intros Hcs Hd. unfold ancestors in Hd.
  apply in_rev, in_map_iff in Hd as (p & <- & Hp).
  exists p. split; [reflexivity|]. exact (inits_Forall name cs p Hcs Hp).
Qed.

Lemma ancestors_count k cs : length (ancestors k cs) = S (length cs).
Proof.
  unfold ancestors. rewrite length_rev, length_map.
  induction cs as [|c cs IH]; [reflexivity|].
  simpl. rewrite length_map. simpl in IH. rewrite IH. reflexivity.
Qed.

Lemma flat_map_equal_in {A B : Type} (f g : A -> list B) (l : list A) :
  (forall x, In x l -> f x = g x) -> flat_map f l = flat_map g l.
Proof.
  induction l as [|x l IH]; intros H; [reflexivity|].
  simpl. rewrite (H x) by (left; reflexivity).
  rewrite IH; [reflexivity|]. intros y Hy. apply H. right. exact Hy.
Qed.

Lemma flat_map_three {A B : Type} (f : A -> list B) (l : list A) :
  (forall x, length (f x) = 3) -> length (flat_map f l) = 3 * length l.
Proof.
  intros H. induction l as [|x l IH]; [reflexivity|].
  simpl flat_map. rewrite length_app, H, IH. simpl. lia.
Qed.

Lemma walk_up_from_abspath w self k cs t :
  1 <= k -> Forall component cs -> Str.truthy t = true ->
  walk_up w self (mkpath k cs) t
  = flat_map (candidates_in w self) (ancestors k cs).
Proof.
  intros Hk Hcs Ht. destruct t as [|a t]; [discriminate|].
  apply walk_up_mkpath; assumption.
Qed.

(** *** Where the walk starts *)

Lemma startswith_antisym s q :
  Str.startswith s q = true -> Str.startswith q s = true -> s = q.
Proof.
  revert q. induction s as [|a s IH]; intros [|b q] H1 H2;
    try reflexivity; try discriminate.
  simpl in H1, H2. apply andb_true_iff in H1 as [Hab H1].
  apply andb_true_iff in H2 as [_ H2].
  apply eqc_true in Hab. subst b. f_equal. apply IH; assumption.
Qed.

Lemma startswith_app s t : Str.startswith (s +:+ t) s = true.
Proof.
  induction s as [|a s IH]; [apply startswith_nil|].
  rewrite str_app_cons. simpl. rewrite eqc_refl. exact IH.
Qed.

(** The longest common prefix is the one string with its two
    properties. *)
Lemma commonprefix_unique m p :
  m <> [] ->
  (forall x, In x m -> Str.startswith x p = true) ->
  (forall q, (forall x, In x m -> Str.startswith x q = true) ->
             Str.startswith p q = true) ->
  posixpath.commonprefix m = p.
Proof.
  intros Hm Hp Hgreatest. destruct m as [|s m]; [congruence|].
  apply startswith_antisym.
  - unfold posixpath.commonprefix. apply common_scan_greatest; apply Hp;
      [apply min_str_in|apply max_str_in].
  - apply Hgreatest. intros x Hx. unfold posixpath.commonprefix.
    apply common_scan_between;
      [apply min_str_lower|apply max_str_upper]; exact Hx.
Qed.

Lemma startswith_parting d x a y b q :
  x <> y ->
  Str.startswith (d +:+ String x a) q = true ->
  Str.startswith (d +:+ String y b) q = true ->
  Str.startswith d q = true.
Proof.
  intros Hxy. revert q. induction d as [|c d IH]; intros [|e q] H1 H2;
    try reflexivity.
  - rewrite str_app_nil_l in H1, H2. simpl in H1, H2.
    apply andb_true_iff in H1 as [H1 _]. apply andb_true_iff in H2 as [H2 _].
    apply eqc_true in H1, H2. congruence.
  - rewrite str_app_cons in H1, H2. simpl in H1, H2.
    apply andb_true_iff in H1 as [Hc H1]. apply andb_true_iff in H2 as [_ H2].
    simpl. rewrite Hc. exact (IH q H1 H2).
Qed.

(** Two paths that part after [d]: [commonprefix] is [d], wherever in a
    component [d] ends. *)
Lemma commonprefix_parting d x a y b :
  x <> y ->
  posixpath.commonprefix [d +:+ String x a; d +:+ String y b] = d.
Proof.
  intros Hxy. apply commonprefix_unique; [discriminate| |].
  - intros p [<-|[<-|[]]]; apply startswith_app.
  - intros q Hq.
    apply (startswith_parting d x a y b q Hxy); apply Hq; simpl; auto.
Qed.

Lemma common_scan_refl s : posixpath.common_scan s s = s.
Proof.
  induction s as [|a s IH]; [reflexivity|]. simpl.
  rewrite eqc_refl, IH. reflexivity.
Qed.

Lemma split_on_concat_any cs :
  cs <> [] -> Forall (fun c => Str.contains posixpath.sep c = false) cs ->
  posixpath.split_on posixpath.sep (String.concat "/" cs) = cs.
Proof.
  induction cs as [|x cs IH]; [congruence|]. intros _ H.
  inversion H as [|? ? Hs Hcs]; subst.
  destruct cs as [|y cs'].
  - simpl. apply split_on_absent. exact Hs.
  - change (String.concat "/" (x :: y :: cs'))
      with (x +:+ String posixpath.sep (String.concat "/" (y :: cs'))).
    rewrite split_on_app by exact Hs.
    rewrite IH; [reflexivity|discriminate|exact Hcs].
Qed.

(** [normpath] drops a slash, or a slash and a dot, at the end of a
    normalised path. *)
Lemma normpath_trailing k cs c :
  k = 1 \/ k = 2 -> Forall name cs -> c = "" \/ c = "." ->
  posixpath.normpath (mkpath k (cs ++ [c])) = mkpath k cs.
Proof.
  intros Hk Hcs Hc.
  assert (Hstep : forall i acc, posixpath.normpath_step i acc c = acc)
    by (intros i acc; destruct Hc as [-> | ->]; reflexivity).
  destruct cs as [|x cs'].
  - destruct Hk as [-> | ->], Hc as [-> | ->]; reflexivity.
  - set (cs := x :: cs') in *.
    assert (Hst : Str.startswith (String.concat "/" (cs ++ [c])) "/" = false).
    { inversion Hcs as [|? ? [[Hx Hs] _] _]; subst.
      destruct x as [|a x]; [discriminate|].
      simpl in Hs. apply orb_false_iff in Hs as [Ha _].
      assert (E : exists r,
                 String.concat "/" (cs ++ [c]) = String a r).
      { subst cs. destruct cs'; simpl; eexists; reflexivity. }
      destruct E as [r ->]. unfold posixpath.sep in Ha. simpl. rewrite Ha.
      reflexivity. }
    assert (Hsplit : posixpath.split_on posixpath.sep
                       (String.concat "/" (cs ++ [c])) = cs ++ [c]).
    { apply split_on_concat_any; [subst cs; discriminate|].
      apply Forall_app. split.
      - eapply Forall_impl; [exact Hcs|]. intros y [[_ Hy] _]. exact Hy.
      - constructor; [|constructor]. destruct Hc as [-> | ->]; reflexivity. }
    assert (Hfold : forall i,
               fold_left (posixpath.normpath_step i)
                 (posixpath.split_on posixpath.sep
                    (String.concat "/" (cs ++ [c]))) []
               = cs).
    { intros i. rewrite Hsplit, fold_left_app.
      rewrite (normpath_fold_names i cs []) by exact Hcs.
      cbn [fold_left app]. apply Hstep. }
    unfold posixpath.normpath.
    destruct Hk as [-> | ->].
    + rewrite mkpath_1. cbn [Str.truthy negb].
      rewrite !startswith_sep_cons, Hst, startswith_nil. cbn [andb].
      rewrite split_on_sep. cbn [fold_left].
      rewrite normpath_step_empty, Hfold. reflexivity.
    + rewrite mkpath_2. cbn [Str.truthy negb].
      rewrite !startswith_sep_cons, Hst, !startswith_nil. cbn [andb negb].
      rewrite !split_on_sep. cbn [fold_left].
      rewrite !normpath_step_empty, Hfold. reflexivity.
Qed.

Lemma abspath_mkpath cwd k cs :
  k = 1 \/ k = 2 -> Forall name cs ->
  posixpath.abspath cwd (mkpath k cs) = mkpath k cs.
Proof.
  intros Hk Hcs. unfold posixpath.abspath.
  rewrite isabs_mkpath by (destruct Hk; lia).
  apply normpath_mkpath; assumption.
Qed.

Lemma abspath_trailing cwd k cs :
  k = 1 \/ k = 2 -> Forall name cs ->
  posixpath.abspath cwd (mkpath k (cs ++ [""])) = mkpath k cs.
Proof.
  intros Hk Hcs. unfold posixpath.abspath.
  rewrite isabs_mkpath by (destruct Hk; lia).
  apply normpath_trailing; auto.
Qed.

Lemma abspath_dot k cs :
  k = 1 \/ k = 2 -> Forall name cs ->
  posixpath.abspath (mkpath k cs) "." = mkpath k cs.
Proof.
  intros Hk Hcs. unfold posixpath.abspath.
  change (posixpath.isabs ".") with false. cbv iota.
  rewrite join_mkpath;
    [|destruct Hk; lia|apply names_components; exact Hcs
     |split; reflexivity].
  apply normpath_trailing; auto.
Qed.

Lemma in_directory_mkpath k p n :
  1 <= k -> Forall component p ->
  in_directory (mkpath k p) n = mkpath k (p ++ [n]).
Proof.
  intros Hk Hp. unfold in_directory.
  destruct p as [|x p'] eqn:E.
  - rewrite mkpath_nil, only_repeat. reflexivity.
  - rewrite <- E in *. assert (Hne : p <> []) by (subst; discriminate).
    unfold mkpath. rewrite only_app, only_repeat. cbn [andb].
    assert (Ho : only posixpath.sep (String.concat "/" p) = false).
    { destruct (only posixpath.sep (String.concat "/" p)) eqn:Eo;
        [|reflexivity].
      pose proof (only_endswith _ _ Eo (concat_truthy p Hne Hp)) as He.
      rewrite concat_endswith in He by assumption. discriminate. }
    rewrite Ho, concat_snoc by assumption.
    rewrite !str_app_assoc. reflexivity.
Qed.

(** The walk from a normalised directory, for a finder whose
    [.<program_name>] is a file name: the three files of every
    directory from it to the root. *)
Lemma walk_up_three w program_name args k comps t :
  k = 1 \/ k = 2 ->
  name ("." +:+ program_name) -> Forall name comps -> Str.truthy t = true ->
  walk_up w (ConfigFileFinder_init w program_name args) (mkpath k comps) t
  = flat_map (three_in program_name) (ancestors k comps).
Proof.
  intros Hk Hprog Hcomps Ht.
  rewrite walk_up_from_abspath;
    [|destruct Hk; lia|apply names_components; exact Hcomps|exact Ht].
  apply flat_map_equal_in. intros d Hd.
  destruct (ancestors_mkpath k comps d Hcomps Hd) as (p & -> & Hp).
  unfold candidates_in, three_in.
  cbn [project_filenames ConfigFileFinder_init map].
  rewrite !abspath_join_mkpath, !join_mkpath, !in_directory_mkpath;
    first [reflexivity | assumption
          | apply names_components; assumption
          | apply name_component; assumption
          | destruct Hk; lia
          | repeat split; solve [reflexivity | discriminate]].
Qed.

(** C7: the local candidates of a constructed [ConfigFileFinder] (POSIX
    paths; [mkpath k comps] is the normalised absolute directory of the
    names [comps] below a root of [k] slashes).  The sequence is a list,
    hence finite.  From the directory where the walk starts, which is
    the [parent] that [__init__] has computed, it holds, for that
    directory and each of its ancestors up to the root, which comes last
    and once, the three paths [setup.cfg], [tox.ini] and
    [.<program_name>] in that directory, in that order.  The walk starts
    at the common ancestor when one directory is given, when none is
    given (the working directory) and when two paths part at a slash.
    When two paths part inside a component, [/a/bc] and [/a/bd], it
    starts at the directory named by the characters they share, [/a/b],
    which is the ancestor of neither, and not at their common ancestor
    [/a]. *)
Theorem local_candidates_walk_to_root (w : world) (program_name : string)
    (k : nat) (comps : list string) :
  k = 1 \/ k = 2 ->
  name ("." +:+ program_name) ->
  Forall name comps ->
  (forall args, posixpath.isabs (getcwd w) = true ->
     exists k' comps',
       (k' = 1 \/ k' = 2) /\ Forall name comps'
       /\ parent (ConfigFileFinder_init w program_name args)
          = mkpath k' comps'
       /\ generate_possible_local_config_files w
            (ConfigFileFinder_init w program_name args)
          = flat_map (three_in program_name) (ancestors k' comps'))
  /\ generate_possible_local_config_files w
       (ConfigFileFinder_init w program_name [mkpath k comps])
     = flat_map (three_in program_name) (ancestors k comps)
  /\ (getcwd w = mkpath k comps ->
      generate_possible_local_config_files w
        (ConfigFileFinder_init w program_name [])
      = flat_map (three_in program_name) (ancestors k comps))
  /\ (forall x y a b, x <> y ->
      generate_possible_local_config_files w
        (ConfigFileFinder_init w program_name
           [mkpath k (comps ++ [""]) +:+ String x a;
            mkpath k (comps ++ [""]) +:+ String y b])
      = flat_map (three_in program_name) (ancestors k comps))
  /\ (forall c x y a b, name c -> x <> y ->
      generate_possible_local_config_files w
        (ConfigFileFinder_init w program_name
           [mkpath k (comps ++ [c]) +:+ String x a;
            mkpath k (comps ++ [c]) +:+ String y b])
      = flat_map (three_in program_name) (ancestors k (comps ++ [c])))
  /\ List.NoDup (ancestors k comps)
  /\ List.hd_error (ancestors k comps) = Some (mkpath k comps)
  /\ List.last (ancestors k comps) "" = Str.repeat posixpath.sep k
  /\ length (flat_map (three_in program_name) (ancestors k comps))
     = 3 * S (length comps).
Proof.
  intros Hk Hprog Hcomps.
  assert (Hfrom : forall args j cs,
             j = 1 \/ j = 2 -> Forall name cs ->
             parent (ConfigFileFinder_init w program_name args) = mkpath j cs ->
             generate_possible_local_config_files w
               (ConfigFileFinder_init w program_name args)
             = flat_map (three_in program_name) (ancestors j cs)).
  { intros args j cs Hj Hcs Hparent.
    unfold generate_possible_local_config_files.
    replace (tail (ConfigFileFinder_init w program_name args))
      with (parent (ConfigFileFinder_init w program_name args))
      by reflexivity.
    rewrite Hparent.
    pose proof (walk_up_three w program_name args j cs (mkpath j cs)
                  Hj Hprog Hcs) as H.
    apply H. destruct Hj as [-> | ->]; reflexivity. }
  pose proof (fun args cs => Hfrom args k cs Hk) as Hwalk.
  split; [|split; [|split; [|split; [|split; [|split; [|split; [|split]]]]]]].
  - intros args Hcwd.
    destruct (abspath_shape (getcwd w)
                (posixpath.commonprefix match args with
                                        | [] => ["."]
                                        | _ :: _ => args
                                        end) Hcwd)
      as (j & cs & Hj & Hcs & Hparent).
    exists j, cs. split; [exact Hj|]. split; [exact Hcs|].
    split; [exact Hparent|]. exact (Hfrom args j cs Hj Hcs Hparent).
  - apply Hwalk; [exact Hcomps|].
    cbn [parent ConfigFileFinder_init posixpath.commonprefix
         posixpath.min_str posixpath.max_str fold_left].
    rewrite common_scan_refl. apply abspath_mkpath; assumption.
  - intros Hcwd. apply Hwalk; [exact Hcomps|].
    cbn [parent ConfigFileFinder_init]. rewrite Hcwd.
    change (posixpath.commonprefix ["."]) with ".".
    apply abspath_dot; assumption.
  - intros x y a b Hxy. apply Hwalk; [exact Hcomps|].
    cbn [parent ConfigFileFinder_init].
    rewrite commonprefix_parting by exact Hxy.
    apply abspath_trailing; assumption.
  - intros c x y a b Hc Hxy.
    assert (Hcs : Forall name (comps ++ [c])).
    { apply Forall_app. split; [exact Hcomps|]. constructor; [exact Hc|].
      constructor. }
    apply Hwalk; [exact Hcs|].
    cbn [parent ConfigFileFinder_init].
    rewrite commonprefix_parting by exact Hxy.
    apply abspath_mkpath; assumption.
  - apply ancestors_NoDup, names_components. exact Hcomps.
  - apply ancestors_head.
  - apply ancestors_last.
  - rewrite flat_map_three by reflexivity.
    rewrite ancestors_count. reflexivity.
Qed.

Lemma local_candidates_walk_to_root_witness :
  generate_possible_local_config_files world_empty
    (ConfigFileFinder_init world_empty "flake8" ["/a/bc"; "/a/bd"])
  = ["/a/b/setup.cfg"; "/a/b/tox.ini"; "/a/b/.flake8";
     "/a/setup.cfg"; "/a/tox.ini"; "/a/.flake8";
     "/setup.cfg"; "/tox.ini"; "/.flake8"]
  /\ generate_possible_local_config_files world_empty
       (ConfigFileFinder_init world_empty "flake8" ["/a/b"; "/a/c"])
     = ["/a/setup.cfg"; "/a/tox.ini"; "/a/.flake8";
        "/setup.cfg"; "/tox.ini"; "/.flake8"]
  /\ generate_possible_local_config_files world_empty
       (ConfigFileFinder_init world_empty "flake8" ["/a"])
     = ["/a/setup.cfg"; "/a/tox.ini"; "/a/.flake8";
        "/setup.cfg"; "/tox.ini"; "/.flake8"].
Proof.
  assert (Hflake8 : name ".flake8").
  { repeat split; try reflexivity; discriminate. }
  assert (Hb : name "b").
  { repeat split; try reflexivity; discriminate. }
  assert (Ha : Forall name ["a"]).
  { constructor; [|constructor].
    repeat split; try reflexivity; discriminate. }
  destruct (local_candidates_walk_to_root world_empty "flake8" 1 ["a"]
              (or_introl eq_refl) Hflake8 Ha)
    as (_ & Hone & _ & Hslash & Hinside & _).
  split; [|split].
  - refine (Hinside "b" "c"%char "d"%char "" "" Hb _). discriminate.
  - refine (Hslash "b"%char "c"%char "" "" _). discriminate.
  - exact Hone.
Defined.

Example local_candidates_example :
  generate_possible_local_config_files world_empty
    (ConfigFileFinder_init world_empty "flake8" ["/a/b"; "/a/c"])
  = ["/a/setup.cfg"; "/a/tox.ini"; "/a/.flake8";
     "/setup.cfg"; "/tox.ini"; "/.flake8"].
Proof. vm_compute. reflexivity. Qed.

Example local_candidates_from_root :
  generate_possible_local_config_files world_empty
    (ConfigFileFinder_init world_empty "flake8" ["/"])
  = ["/setup.cfg"; "/tox.ini"; "/.flake8"].
Proof. vm_compute. reflexivity. Qed.

Example user_config_file_posix :
  user_config_file world_empty (ConfigFileFinder_init world_empty "flake8" [])
  = "/home/user/.config/flake8".
Proof. reflexivity. Qed.

(** C8: [commonprefix] compares the paths character by character, not
    component by component.  The code computes the common ancestor of the
    specification's example, and the working directory when no path is
    given; for [/a/bc] and [/a/bd] it computes [/a/b], which is a prefix
    of both strings and the directory of neither, where the longest
    shared directory prefix is [/a]. *)
Theorem common_ancestor_by_characters (w : world) (program_name : string) :
  parent (ConfigFileFinder_init w program_name ["/a/b"; "/a/c"]) = "/a"
  /\ parent (ConfigFileFinder_init w program_name ["/a/bc"; "/a/bd"]) = "/a/b"
  /\ parent (ConfigFileFinder_init w program_name [])
     = posixpath.abspath (getcwd w) ".".
Proof. repeat split. Qed.

(** ** Config loader *)

Example int_examples :
  configparser.int " -12 " = Return (-12)%Z
  /\ configparser.int "+7" = Return 7%Z
  /\ configparser.int "abc" = Raise ValueError
  /\ configparser.int "" = Raise ValueError.
Proof. repeat split. Qed.

Lemma read_well_formed w files cfg :
  (forall f, In f files -> open_ w f <> Some configparser.Malformed) ->
  configparser.read (open_ w) cfg files
  = Return (fold_left configparser.add_section_items (sections_of w files) cfg,
            filter (fun f => readable w f = true) files).
Proof.
  revert cfg. induction files as [|f files IH]; intros cfg H; [reflexivity|].
  assert (Hrest : forall g, In g files ->
                            open_ w g <> Some configparser.Malformed)
    by (intros g Hg; apply H; right; exact Hg).
  pose proof (H f (or_introl eq_refl)) as Hf.
  cbn [configparser.read]. unfold sections_of. cbn [flat_map].
  fold (sections_of w files).
  destruct (open_ w f) as [[|secs]|] eqn:E.
  - congruence.
  - rewrite filter_cons_True by (unfold readable; rewrite E; reflexivity).
    cbn [configparser._read bind]. rewrite IH by exact Hrest.
    cbn [bind fst snd]. rewrite fold_left_app. reflexivity.
  - rewrite filter_cons_False
      by (unfold readable; rewrite E; discriminate).
    rewrite IH by exact Hrest. reflexivity.
Qed.

(** C4, as stated, fails on a file that is there and is malformed: [read]
    does not catch what [_read] raises. *)
Lemma read_config_malformed_raises :
  open_ (example_world [("/proj/setup.cfg", File configparser.Malformed)])
        "/proj/setup.cfg" = Some configparser.Malformed
  /\ _read_config
       (example_world [("/proj/setup.cfg", File configparser.Malformed)])
       ["/nonexistent"; "/proj/setup.cfg"] = Raise ParsingError.
Proof. split; reflexivity. Qed.

(** C4, amended: for every list of paths none of which is a malformed
    file, [_read_config] does not raise; it returns a parsed configuration
    made of the sections of the files that could be opened, in order, and
    the list of exactly those paths, in order: paths that do not exist are
    left out and add nothing.  When no path can be opened the
    configuration is the empty one and the list is empty. *)
Theorem read_config_omits_missing (w : world) (files : list string) :
  (forall f, In f files -> open_ w f <> Some configparser.Malformed) ->
  _read_config w files
  = Return (fold_left configparser.add_section_items (sections_of w files)
              configparser.empty,
            filter (fun f => readable w f = true) files)
  /\ (forall f, In f (filter (fun f => readable w f = true) files) ->
                path_exists w f = true)
  /\ ((forall f, In f files -> readable w f = false) ->
      _read_config w files = Return (configparser.empty, [])).
Proof.
  intros H.
  assert (Hread : _read_config w files
    = Return (fold_left configparser.add_section_items (sections_of w files)
                configparser.empty,
              filter (fun f => readable w f = true) files)).
  { unfold _read_config. rewrite read_well_formed by exact H. reflexivity. }
  split; [exact Hread|]. split.
  - intros f Hf. apply list_elem_of_In, list_elem_of_filter in Hf as [Hr _].
    unfold readable, open_ in Hr. unfold path_exists.
    destruct (fs w f); [reflexivity|discriminate].
  - intros Hnone. rewrite Hread. f_equal. f_equal.
    + unfold sections_of.
      assert (E : forall l, (forall f, In f l -> readable w f = false) ->
                flat_map (fun f => match open_ w f with
                                   | Some (configparser.Sections secs) => secs
                                   | _ => []
                                   end) l = []).
      { induction l as [|g l IH]; intros Hl; [reflexivity|]. simpl.
        pose proof (Hl g (or_introl eq_refl)) as Hg. unfold readable in Hg.
        destruct (open_ w g); [discriminate|].
        apply IH. intros f Hf. apply Hl. right. exact Hf. }
      rewrite E by exact Hnone. reflexivity.
    + induction files as [|g l IH]; [reflexivity|].
      rewrite filter_cons_False
        by (rewrite (Hnone g (or_introl eq_refl)); discriminate).
      apply IH.
      * intros f Hf. apply H. right. exact Hf.
      * unfold _read_config. rewrite read_well_formed; [reflexivity|].
        intros f Hf. apply H. right. exact Hf.
      * intros f Hf. apply Hnone. right. exact Hf.
Qed.

Lemma read_config_omits_missing_witness :
  _read_config world_local_only ["/nonexistent"; "/proj/setup.cfg"; "/proj"]
  = Return ([("flake8", [("ignore", "E1")])], ["/proj/setup.cfg"])
  /\ _read_config world_empty ["/nonexistent"]
     = Return (configparser.empty, []).
Proof.
  split.
  - refine (proj1 (read_config_omits_missing world_local_only
                     ["/nonexistent"; "/proj/setup.cfg"; "/proj"] _)).
    intros f [<-|[<-|[<-|[]]]]; vm_compute; discriminate.
  - refine (proj2 (proj2 (read_config_omits_missing world_empty
                            ["/nonexistent"] _)) _).
    + intros f [<-|[]]; vm_compute; discriminate.
    + intros f [<-|[]]; reflexivity.
Defined.

(** ** Merge *)

Lemma merge_items_Some items (d : gmap string value) :
  merge_items items (Some d)
  = Return (Some (fold_left (fun m kv => setdefault m (fst kv) (snd kv))
                            items d)).
Proof.
  revert d. induction items as [|[k v] items IH]; intros d; [reflexivity|].
  simpl. apply IH.
Qed.

Lemma setdefault_fold_lookup items (d : gmap string value) k :
  fold_left (fun m kv => setdefault m (fst kv) (snd kv)) items d !! k
  = match d !! k with
    | Some v => Some v
    | None => (list_to_map items : gmap string value) !! k
    end.
Proof.
  revert d. induction items as [|[k0 v0] items IH]; intros d.
  - simpl. rewrite lookup_empty. destruct (d !! k); reflexivity.
  - simpl. rewrite IH. unfold setdefault.
    destruct (decide (k0 = k)) as [->|Hne].
    + rewrite lookup_insert_eq.
      destruct (d !! k) eqn:Ek; [rewrite Ek; reflexivity|].
      rewrite lookup_insert_eq. reflexivity.
    + rewrite (lookup_insert_ne _ k0 k) by exact Hne.
      destruct (d !! k0); [reflexivity|].
      rewrite lookup_insert_ne by exact Hne. reflexivity.
Qed.

(** The loop of [parse] on two dictionaries: every key of the local
    result keeps the local value, every other key of the user result is
    added with the user value. *)
Lemma merge_dictionaries (user_config config : gmap string value) :
  merge (Some user_config) (Some config) = Return (Some (config ∪ user_config)).
Proof.
  unfold merge. rewrite merge_items_Some. do 2 f_equal.
  apply map_eq. intros k. rewrite setdefault_fold_lookup.
  rewrite list_to_map_to_list, lookup_union.
  destruct (config !! k), (user_config !! k); reflexivity.
Qed.

Lemma merge_None_config (user_config : option (gmap string value)) :
  merge user_config None = Return None \/ merge user_config None = Raise AttributeError.
Proof.
  destruct user_config as [u|]; [|right; reflexivity]. unfold merge.
  destruct (map_to_list u) as [|[k v] items]; [left|right]; reflexivity.
Qed.

Lemma parse_config_loop_unregistered self config names d :
  Forall (fun n => config_options self !! n = None) names ->
  parse_config_loop self config names d = Return d.
Proof.
  revert d. induction names as [|n names IH]; intros d H; [reflexivity|].
  inversion H as [|? ? Hn Hnames]; subst. simpl. rewrite Hn. apply IH.
  exact Hnames.
Qed.

(** What the loop of [_parse_config] builds when it comes to its end: the
    names that are not registered are passed over; every registered name
    among [option_names] gets a value, and each value is the coercion of
    what [config], the parser the function has read itself, holds for
    that name. *)
Lemma parse_config_loop_builds self config option_names d d' :
  parse_config_loop self config option_names d = Return d' ->
  forall k,
    (is_Some (d' !! k) <->
     is_Some (d !! k)
     \/ (In k option_names /\ is_Some (config_options self !! k)))
    /\ (forall v, d' !! k = Some v ->
          d !! k = Some v
          \/ exists option,
               config_options self !! k = Some option
               /\ coerce config (merged_program_name self) k option
                  = Return v).
Proof.
  revert d. induction option_names as [|n names IH]; intros d H k.
  - simpl in H. inversion H; subst. split; [|auto].
    split; [auto|]. intros [Hs|[[] _]]. exact Hs.
  - simpl in H. destruct (config_options self !! n) as [o|] eqn:Ho.
    + destruct (coerce config (merged_program_name self) n o) as [v0|e] eqn:Hc;
        simpl in H; [|discriminate].
      destruct (IH _ H k) as [Hdom Hval]. split.
      * rewrite Hdom, lookup_insert_is_Some. split.
        -- intros [[->|[_ Hs]]|[Hin Hreg]].
           ++ right. split; [left; reflexivity|]. rewrite Ho. eauto.
           ++ left. exact Hs.
           ++ right. split; [right; exact Hin|exact Hreg].
        -- intros [Hs|[[->|Hin] Hreg]].
           ++ left. destruct (decide (n = k)); [left|right]; auto.
           ++ left. left. reflexivity.
           ++ right. split; assumption.
      * intros v Hv. destruct (Hval v Hv) as [Hd|Hex]; [|right; exact Hex].
        destruct (decide (n = k)) as [->|Hne].
        -- rewrite lookup_insert_eq in Hd. inversion Hd; subst.
           right. exists o. split; assumption.
        -- rewrite lookup_insert_ne in Hd by exact Hne. left. exact Hd.
    + destruct (IH _ H k) as [Hdom Hval]. split; [|exact Hval].
      rewrite Hdom. split.
      * intros [Hs|[Hin Hreg]]; [left; exact Hs|].
        right. split; [right; exact Hin|exact Hreg].
      * intros [Hs|[[->|Hin] Hreg]]; [left; exact Hs| |].
        -- rewrite Ho in Hreg. destruct Hreg as [? Hreg]. discriminate.
        -- right. split; assumption.
Qed.

Lemma parse_config_loop_builds_witness :
  (is_Some (({[ "ignore" := VStr "E1" ]} : gmap string value) !! "ignore") <->
   is_Some ((∅ : gmap string value) !! "ignore")
   \/ (In "ignore" ["ignore"; "unknown"]
       /\ is_Some (config_options (example_parser world_both) !! "ignore")))
  /\ (forall v,
        ({[ "ignore" := VStr "E1" ]} : gmap string value) !! "ignore" = Some v ->
        (∅ : gmap string value) !! "ignore" = Some v
        \/ exists option,
             config_options (example_parser world_both) !! "ignore"
             = Some option
             /\ coerce [("flake8", [("ignore", "E1")])]
                  (merged_program_name (example_parser world_both))
                  "ignore" option
                = Return v).
Proof.
  refine (parse_config_loop_builds (example_parser world_both)
            [("flake8", [("ignore", "E1")])] ["ignore"; "unknown"] ∅
            {[ "ignore" := VStr "E1" ]} _ "ignore").
  vm_compute. reflexivity.
Defined.

(** [_parse_config] never hands the dictionary it builds to its caller. *)
Lemma _parse_config_outcomes w self config_parser :
  _parse_config w self config_parser = Return None
  \/ _parse_config w self config_parser = Return (Some ∅)
  \/ raises (_parse_config w self config_parser).
Proof.
  unfold _parse_config, raises.
  destruct (local_configs w (config_finder self)) as [config|e]; simpl;
    [|eauto].
  destruct (configparser.has_section config (merged_program_name self));
    simpl; [|auto].
  destruct (configparser.options config_parser (merged_program_name self))
    as [names|e]; simpl; [|eauto].
  destruct (parse_config_loop self config names ∅) as [d|e]; simpl; eauto.
Qed.

Lemma parse_local_config_outcomes w self :
  parse_local_config w self = Return None
  \/ raises (parse_local_config w self).
Proof.
  unfold parse_local_config, is_configured_by, raises.
  destruct (local_configs w (config_finder self)) as [config|e] eqn:El; simpl;
    [|eauto].
  destruct (configparser.has_section config (merged_program_name self)) eqn:Eh;
    simpl; [|auto].
  unfold _parse_config. rewrite El. simpl. rewrite Eh. simpl.
  destruct (configparser.options config (merged_program_name self))
    as [names|e]; simpl; [|eauto].
  destruct (parse_config_loop self config names ∅) as [d|e]; simpl; eauto.
Qed.

Lemma parse_outcomes w self :
  parse w self = Return None \/ raises (parse w self).
Proof.
  unfold parse.
  destruct (parse_user_config w self) as [user_config|e]; simpl;
    [|right; eexists; reflexivity].
  destruct (parse_local_config_outcomes w self) as [-> | [e ->]]; simpl.
  - destruct (merge_None_config user_config) as [-> | ->];
      [left|right; eexists]; reflexivity.
  - right; eexists; reflexivity.
Qed.

Lemma parse_user_absent w self ucfg :
  user_config w (config_finder self) = Return ucfg ->
  is_configured_by self ucfg = false ->
  parse_user_config w self = Return None.
Proof.
  intros Hu Hs. unfold parse_user_config. rewrite Hu. simpl. rewrite Hs.
  reflexivity.
Qed.

Example registrations_succeed : registrations = Return example_manager.
Proof. reflexivity. Qed.

Example example_manager_keys :
  map config_name (options example_manager)
  = [Some "ignore"; Some "max_line_length"].
Proof. reflexivity. Qed.

Example world_both_sections :
  local_configs world_both (config_finder (example_parser world_both))
  = Return [("flake8", [("ignore", "E1")])]
  /\ user_config world_both (config_finder (example_parser world_both))
     = Return [("flake8", [("ignore", "E2")])].
Proof. split; vm_compute; reflexivity. Qed.

(** C1: [parse] does not return the combined mapping.  With [ignore] set
    to [E1] in the project and to [E2] for the user, the merged mapping
    would hold [ignore] with the local value; [parse] raises
    [AttributeError] instead, both parsed results being [None].  In no
    state does [parse] return a mapping: it returns [None] or raises. *)
Theorem parse_returns_no_mapping :
  parse_user_config world_both (example_parser world_both) = Return None
  /\ parse_local_config world_both (example_parser world_both) = Return None
  /\ parse world_both (example_parser world_both) = Raise AttributeError
  /\ forall w self, parse w self = Return None \/ raises (parse w self).
Proof.
  split; [vm_compute; reflexivity|].
  split; [vm_compute; reflexivity|].
  split; [vm_compute; reflexivity|].
  exact parse_outcomes.
Qed.

(** C2: with the section in neither configuration both parsed results
    are [None], and [parse] fails on [user_config.items()] where an empty
    mapping is due. *)
Theorem parse_fails_without_sections (w : world) (self : MergedConfigParser)
    (ucfg lcfg : configparser.RawConfigParser) :
  user_config w (config_finder self) = Return ucfg ->
  local_configs w (config_finder self) = Return lcfg ->
  is_configured_by self ucfg = false ->
  is_configured_by self lcfg = false ->
  parse_user_config w self = Return None
  /\ parse_local_config w self = Return None
  /\ parse w self = Raise AttributeError.
Proof.
  intros Hu Hl Hus Hls.
  assert (Hpu : parse_user_config w self = Return None)
    by (eapply parse_user_absent; eassumption).
  assert (Hpl : parse_local_config w self = Return None).
  { unfold parse_local_config. rewrite Hl. simpl. rewrite Hls. reflexivity. }
  repeat split; try assumption.
  unfold parse. rewrite Hpu, Hpl. reflexivity.
Qed.

Lemma parse_fails_without_sections_witness :
  parse_user_config world_empty (example_parser world_empty) = Return None
  /\ parse_local_config world_empty (example_parser world_empty) = Return None
  /\ parse world_empty (example_parser world_empty) = Raise AttributeError.
Proof.
  apply (parse_fails_without_sections world_empty (example_parser world_empty)
           configparser.empty configparser.empty);
    vm_compute; reflexivity.
Defined.

(** C3: [_parse_config] takes the option names from the configuration it
    is given and the values from the local configuration, and returns
    nothing.  Given the user configuration of [world_both], its loop
    builds the dictionary that holds [ignore] with the project's [E1],
    not the user's [E2], and the call returns [None].  In no state does
    [_parse_config] return what its loop has built. *)
Theorem _parse_config_drops_its_dictionary :
  example_user_config_dict world_both = Return {[ "ignore" := VStr "E1" ]}
  /\ example_filter_user_config world_both = Return None
  /\ forall w self config_parser,
       _parse_config w self config_parser = Return None
       \/ _parse_config w self config_parser = Return (Some ∅)
       \/ raises (_parse_config w self config_parser).
Proof.
  split; [vm_compute; reflexivity|].
  split; [vm_compute; reflexivity|].
  exact _parse_config_outcomes.
Qed.

(** C10, as stated, fails where parsing the local configuration raises:
    with no user file and [max_line_length = abc] in the project, [parse]
    fails with the [ValueError] of the conversion before it comes to the
    [None] of the user configuration. *)
Lemma parse_local_error_comes_first :
  user_config world_bad_integer
    (config_finder (example_parser world_bad_integer))
  = Return configparser.empty
  /\ parse_user_config world_bad_integer (example_parser world_bad_integer)
     = Return None
  /\ parse world_bad_integer (example_parser world_bad_integer)
     = Raise ValueError.
Proof. repeat split; vm_compute; reflexivity. Qed.

(** C10, amended: in every state in which the user configuration has no
    [program_name] section, [parse_user_config] returns [None] rather
    than a mapping and [parse] fails: with the [AttributeError] of
    iterating over that [None] whenever parsing the local configuration
    returns, a valid local section included, and with the error of the
    local configuration when parsing it raises. *)
Theorem parse_fails_without_user_section (w : world)
    (self : MergedConfigParser) (ucfg : configparser.RawConfigParser) :
  user_config w (config_finder self) = Return ucfg ->
  is_configured_by self ucfg = false ->
  parse_user_config w self = Return None
  /\ raises (parse w self)
  /\ (forall r, parse_local_config w self = Return r ->
                parse w self = Raise AttributeError)
  /\ (forall e, parse_local_config w self = Raise e ->
                parse w self = Raise e).
Proof.
  intros Hu Hs.
  pose proof (parse_user_absent w self ucfg Hu Hs) as Hpu.
  assert (Hr : forall r, parse_local_config w self = Return r ->
                         parse w self = Raise AttributeError).
  { intros r Hl. unfold parse. rewrite Hpu, Hl. reflexivity. }
  assert (He : forall e, parse_local_config w self = Raise e ->
                         parse w self = Raise e).
  { intros e Hl. unfold parse. rewrite Hpu, Hl. reflexivity. }
  repeat split; try assumption.
  destruct (parse_local_config w self) as [r|e] eqn:El.
  - exists AttributeError. apply (Hr r). reflexivity.
  - exists e. apply He. reflexivity.
Qed.

Lemma parse_fails_without_user_section_witness :
  local_configs world_local_only (config_finder (example_parser world_local_only))
  = Return [("flake8", [("ignore", "E1")])]
  /\ parse world_local_only (example_parser world_local_only)
     = Raise AttributeError.
Proof.
  split; [vm_compute; reflexivity|].
  refine (proj1 (proj2 (proj2
            (parse_fails_without_user_section world_local_only
               (example_parser world_local_only) configparser.empty _ _)))
            None _);
    vm_compute; reflexivity.
Defined.

(** * Further properties *)

(** ** The registry *)





Example same_key_registered_twice :
  exists m o1 o2,
    add_options accept_option
      (OptionManager_init (fun _ _ _ => tt) "flake8" None "")
      [from_config_args (Some "--my-option");
       from_config_args (Some "--my_option")] = Return m
    /\ options m = [o1; o2]
    /\ long_option_name o1 = Some "--my-option"
    /\ long_option_name o2 = Some "--my_option"
    /\ config_options_dict m !! "my_option" = Some o2.
Proof. do 3 eexists. repeat split. Qed.

(** [nargs], [const] and [choices] are taken by [Option.__init__] and
    kept nowhere: they change neither the option nor what its
    registration hands to the parser. *)
Theorem nargs_const_choices_ignored (a : Option_args)
    (nargs const choices : option pyobject) :
  Option_init (with_nargs_const_choices a nargs const choices) = Option_init a
  /\ forall (P : Type) padd (m : OptionManager P),
       add_option padd m (with_nargs_const_choices a nargs const choices)
       = add_option padd m a.
Proof.
  assert (H : Option_init (with_nargs_const_choices a nargs const choices)
              = Option_init a) by (destruct a; reflexivity).
  split; [exact H|]. intros P padd m. unfold add_option. rewrite H.
  reflexivity.
Qed.

(** ** The configuration key *)

Lemma strip_absent c s :
  Str.contains c s = false -> Str.strip (String c "") s = s.
Proof.
  intros H. unfold Str.strip.
  assert (Hl : Str.lstrip (String c "") s = s).
  { destruct s as [|a s]; [reflexivity|]. simpl in *.
    apply orb_false_iff in H as [Ha _].
    destruct (eqc_spec c a) as [->|_]; [|reflexivity].
    rewrite eqc_refl in Ha. discriminate. }
  rewrite Hl. apply rstrip_no_trailing, endswith_absent. exact H.
Qed.

Lemma replace_absent old new s :
  Str.contains old s = false -> Str.replace old new s = s.
Proof.
  induction s as [|a s IH]; [reflexivity|]. simpl.
  intros H. apply orb_false_iff in H as [Ha Hs].
  rewrite Ha, IH by exact Hs. reflexivity.
Qed.

(** The derived key does not see the dashes at either end of the long
    name, and it is a key of itself: long names that differ in their
    outer dashes, or in a dash for an underscore inside, derive one and
    the same key. *)
Theorem config_key_normal_form (long : string) :
  derive_config_name (String "-" long) = derive_config_name long
  /\ derive_config_name (long +:+ "-") = derive_config_name long
  /\ derive_config_name (derive_config_name long) = derive_config_name long
  /\ derive_config_name (Str.replace "-" "_" (Str.strip "-" long))
     = derive_config_name long.
Proof.
  assert (Hfix : derive_config_name (derive_config_name long)
                 = derive_config_name long).
  { assert (Hno : Str.contains "-" (derive_config_name long) = false)
      by (apply replace_removes; discriminate).
    unfold derive_config_name at 1.
    rewrite (strip_absent "-") by exact Hno.
    apply replace_absent. exact Hno. }
  split; [reflexivity|]. split; [|split; [exact Hfix|exact Hfix]].
  unfold derive_config_name, Str.strip.
  rewrite !lstrip_rstrip_comm, rstrip_snoc by reflexivity. reflexivity.
Qed.

(** ** Absolute paths *)

(** [abspath] returns an absolute path in normal form: resolving it
    again, from any directory, or normalising it again changes
    nothing. *)
Theorem abspath_normal_form (cwd cwd' p : string) :
  posixpath.isabs cwd = true ->
  posixpath.isabs (posixpath.abspath cwd p) = true
  /\ posixpath.normpath (posixpath.abspath cwd p) = posixpath.abspath cwd p
  /\ posixpath.abspath cwd' (posixpath.abspath cwd p)
     = posixpath.abspath cwd p.
Proof.
  intros Hcwd.
  destruct (abspath_shape cwd p Hcwd) as (k & cs & Hk & Hcs & ->).
  assert (Habs : posixpath.isabs (mkpath k cs) = true)
    by (apply isabs_mkpath; destruct Hk; lia).
  pose proof (normpath_mkpath k cs Hk Hcs) as Hn.
  repeat split; [exact Habs|exact Hn|].
  unfold posixpath.abspath. rewrite Habs. exact Hn.
Qed.

Lemma abspath_normal_form_witness :
  posixpath.isabs (posixpath.abspath "/proj" "../a//b/.") = true
  /\ posixpath.normpath (posixpath.abspath "/proj" "../a//b/.")
     = posixpath.abspath "/proj" "../a//b/."
  /\ posixpath.abspath "/elsewhere" (posixpath.abspath "/proj" "../a//b/.")
     = posixpath.abspath "/proj" "../a//b/.".
Proof.
  exact (abspath_normal_form "/proj" "/elsewhere" "../a//b/." eq_refl).
Defined.

(** [split] and [join] on what [abspath] returns: joining the head and
    the tail gives the path back, and the tail is empty on the root only,
    where the head is the root itself. *)
Theorem split_join_round_trip (cwd p : string) :
  posixpath.isabs cwd = true ->
  posixpath.join (fst (posixpath.split (posixpath.abspath cwd p)))
                 (snd (posixpath.split (posixpath.abspath cwd p)))
  = posixpath.abspath cwd p
  /\ (Str.truthy (snd (posixpath.split (posixpath.abspath cwd p))) = false ->
      fst (posixpath.split (posixpath.abspath cwd p)) = posixpath.abspath cwd p
      /\ only posixpath.sep (posixpath.abspath cwd p) = true)
  /\ String.length (fst (posixpath.split (posixpath.abspath cwd p)))
     <= String.length (posixpath.abspath cwd p).
Proof.
  intros Hcwd.
  destruct (abspath_shape cwd p Hcwd) as (k & cs & Hk & Hcs & ->).
  assert (Hk1 : 1 <= k) by (destruct Hk; lia).
  pose proof (names_components cs Hcs) as Hcomp.
  destruct cs as [|c cs _] using rev_ind.
  - rewrite mkpath_nil, split_root by exact Hk1. cbn [fst snd].
    split; [|split].
    + unfold posixpath.join. cbn [Str.startswith].
      assert (He : Str.endswith (Str.repeat posixpath.sep k) posixpath.sep
                   = true).
      { apply only_endswith; [apply only_repeat|].
        destruct k; [lia|reflexivity]. }
      rewrite He, orb_true_r. apply str_app_nil_r.
    + intros _. split; [reflexivity|apply only_repeat].
    + lia.
  - apply Forall_app in Hcomp as [Hcomp Hc].
    inversion Hc as [|? ? Hc' _]; subst.
    rewrite split_mkpath_snoc by assumption. cbn [fst snd].
    split; [|split].
    + apply join_mkpath; assumption.
    + intros Ht. destruct Hc' as [Htr _]. congruence.
    + pose proof (mkpath_snoc_length k cs c Hc'). lia.
Qed.

Lemma split_join_round_trip_witness :
  posixpath.join (fst (posixpath.split (posixpath.abspath "/proj" "a/b")))
                 (snd (posixpath.split (posixpath.abspath "/proj" "a/b")))
  = posixpath.abspath "/proj" "a/b"
  /\ (Str.truthy (snd (posixpath.split (posixpath.abspath "/proj" "a/b")))
      = false ->
      fst (posixpath.split (posixpath.abspath "/proj" "a/b"))
      = posixpath.abspath "/proj" "a/b"
      /\ only posixpath.sep (posixpath.abspath "/proj" "a/b") = true)
  /\ String.length (fst (posixpath.split (posixpath.abspath "/proj" "a/b")))
     <= String.length (posixpath.abspath "/proj" "a/b").
Proof. exact (split_join_round_trip "/proj" "a/b" eq_refl). Defined.

(** ** The candidate sequence *)

Lemma mkpath_inj k p q :
  Forall component p -> Forall component q ->
  mkpath k p = mkpath k q -> p = q.
Proof.
  intros Hp Hq H. unfold mkpath in H. apply String.app_inj in H.
  destruct p as [|x p], q as [|y q]; [reflexivity| | |].
  - pose proof (concat_truthy (y :: q) ltac:(discriminate) Hq) as Ht.
    rewrite <- H in Ht. discriminate.
  - pose proof (concat_truthy (x :: p) ltac:(discriminate) Hp) as Ht.
    rewrite H in Ht. discriminate.
  - rewrite <- (split_on_concat (x :: p)), <- (split_on_concat (y :: q))
      by (auto; discriminate).
    rewrite H. reflexivity.
Qed.

Lemma flat_map_map {A B C : Type} (g : A -> B) (f : B -> list C) (l : list A) :
  flat_map f (map g l) = flat_map (fun x => f (g x)) l.
Proof.
  induction l as [|x l IH]; [reflexivity|]. simpl. rewrite IH. reflexivity.
Qed.

Lemma map_flat_map {A B C : Type} (g : B -> C) (f : A -> list B) (l : list A) :
  map g (flat_map f l) = flat_map (fun x => map g (f x)) l.
Proof.
  induction l as [|x l IH]; [reflexivity|]. simpl.
  rewrite map_app, IH. reflexivity.
Qed.

Lemma candidate_comps_snoc names cs c :
  candidate_comps names (cs ++ [c])
  = map (fun n => (cs ++ [c]) ++ [n]) names ++ candidate_comps names cs.
Proof.
  unfold candidate_comps. rewrite inits_snoc, rev_app_distr. reflexivity.
Qed.

Lemma candidate_comps_length names cs x :
  In x (candidate_comps names cs) -> length x <= S (length cs).
Proof.
  induction cs as [|c cs IH] using rev_ind.
  - unfold candidate_comps. simpl. rewrite List.app_nil_r.
    intros Hx. apply in_map_iff in Hx as (n & <- & _). simpl. lia.
  - rewrite candidate_comps_snoc. intros Hx.
    apply in_app_iff in Hx as [Hx|Hx].
    + apply in_map_iff in Hx as (n & <- & _). rewrite !length_app. simpl. lia.
    + specialize (IH Hx). rewrite length_app. simpl. lia.
Qed.

Lemma candidate_comps_components names cs x :
  Forall component names -> Forall component cs ->
  In x (candidate_comps names cs) -> Forall component x.
Proof.
  intros Hn Hcs Hx. unfold candidate_comps in Hx.
  apply in_flat_map in Hx as (p & Hp & Hx).
  apply in_map_iff in Hx as (n & <- & Hin).
  apply Forall_app. split.
  - apply in_rev in Hp. exact (inits_Forall component cs p Hcs Hp).
  - constructor; [|constructor].
    rewrite Forall_forall in Hn. apply Hn, list_elem_of_In. exact Hin.
Qed.

Lemma candidate_comps_NoDup names cs :
  List.NoDup names -> List.NoDup (candidate_comps names cs).
Proof.
  intros Hn.
  assert (Hmap : forall p : list string,
             List.NoDup (map (fun n => p ++ [n]) names)).
  { intros p. apply NoDup_ListNoDup, NoDup_fmap_2_strong;
      [|apply NoDup_ListNoDup; exact Hn].
    intros a b _ _ Hab. apply app_inj_tail in Hab as [_ Hab]. exact Hab. }
  induction cs as [|c cs IH] using rev_ind.
  - unfold candidate_comps. simpl. rewrite List.app_nil_r. exact (Hmap []).
  - rewrite candidate_comps_snoc.
    apply NoDup_ListNoDup, NoDup_app. split; [apply NoDup_ListNoDup, Hmap|].
    split; [|apply NoDup_ListNoDup, IH].
    intros x Hx Hx'. apply list_elem_of_In in Hx, Hx'.
    apply in_map_iff in Hx as (n & <- & _).
    apply candidate_comps_length in Hx'. rewrite !length_app in Hx'.
    simpl in Hx'. lia.
Qed.

(** The candidates of a finder whose [.<program_name>] is a file name:
    the normalised paths of [candidate_comps]. *)
Lemma generate_mkpaths w program_name args :
  posixpath.isabs (getcwd w) = true ->
  name ("." +:+ program_name) ->
  exists k comps,
    (k = 1 \/ k = 2) /\ Forall name comps
    /\ parent (ConfigFileFinder_init w program_name args) = mkpath k comps
    /\ generate_possible_local_config_files w
         (ConfigFileFinder_init w program_name args)
       = map (mkpath k)
           (candidate_comps ["setup.cfg"; "tox.ini"; "." +:+ program_name]
              comps).
Proof.
  intros Hcwd Hprog.
  destruct (abspath_shape (getcwd w)
              (posixpath.commonprefix match args with
                                      | [] => ["."]
                                      | _ :: _ => args
                                      end) Hcwd)
    as (k & comps & Hk & Hnames & Hparent).
  pose proof (names_components comps Hnames) as Hcomps.
  exists k, comps. repeat split; try assumption.
  unfold generate_possible_local_config_files.
  cbn [parent tail ConfigFileFinder_init]. rewrite Hparent.
  rewrite walk_up_from_abspath;
    [|destruct Hk; lia|exact Hcomps|destruct Hk as [-> | ->]; reflexivity].
  unfold ancestors, candidate_comps.
  rewrite <- map_rev, flat_map_map, map_flat_map.
  apply flat_map_equal_in. intros p Hp. apply in_rev in Hp.
  pose proof (inits_Forall name comps p Hnames Hp) as Hpn.
  unfold candidates_in. cbn [project_filenames ConfigFileFinder_init map].
  rewrite !abspath_join_mkpath, !join_mkpath;
    first [reflexivity | assumption | lia
          | apply names_components; assumption
          | apply name_component; assumption
          | destruct Hk; lia
          | repeat split; solve [reflexivity | discriminate]].
Qed.

(** No candidate comes twice: a configuration file is looked for, and
    read, at most once. *)
Theorem local_candidates_distinct (w : world) (program_name : string)
    (args : list string) :
  posixpath.isabs (getcwd w) = true ->
  name ("." +:+ program_name) ->
  List.NoDup (generate_possible_local_config_files w
                (ConfigFileFinder_init w program_name args))
  /\ List.NoDup (local_config_files w
                   (ConfigFileFinder_init w program_name args)).
Proof.
  intros Hcwd Hprog.
  destruct (generate_mkpaths w program_name args Hcwd Hprog)
    as (k & comps & Hk & Hnames & _ & Hgen).
  assert (Hnd : List.NoDup (generate_possible_local_config_files w
                              (ConfigFileFinder_init w program_name args))).
  { rewrite Hgen.
    assert (Hthree : Forall component
                       ["setup.cfg"; "tox.ini"; "." +:+ program_name]).
    { repeat constructor; try reflexivity. all: apply Hprog. }
    apply NoDup_ListNoDup, NoDup_fmap_2_strong.
    - intros x y Hx Hy. apply list_elem_of_In in Hx, Hy.
      pose proof (names_components comps Hnames) as Hcomps.
      apply mkpath_inj.
      + exact (candidate_comps_components _ comps x Hthree Hcomps Hx).
      + exact (candidate_comps_components _ comps y Hthree Hcomps Hy).
    - apply NoDup_ListNoDup, candidate_comps_NoDup.
      repeat constructor; simpl; try tauto.
      + intros [H|[H|[]]]; [discriminate|].
        apply (f_equal (fun s => String.get 0 s)) in H. discriminate.
      + intros [H|[]]. apply (f_equal (fun s => String.get 0 s)) in H.
        discriminate. }
  split; [exact Hnd|].
  unfold local_config_files. apply NoDup_ListNoDup, NoDup_filter,
    NoDup_ListNoDup. exact Hnd.
Qed.

Lemma local_candidates_distinct_witness :
  List.NoDup (generate_possible_local_config_files world_empty
                (ConfigFileFinder_init world_empty "flake8" ["/a/b"; "/a/c"]))
  /\ List.NoDup (local_config_files world_empty
                   (ConfigFileFinder_init world_empty "flake8"
                      ["/a/b"; "/a/c"])).
Proof.
  apply (local_candidates_distinct world_empty "flake8" ["/a/b"; "/a/c"]).
  - reflexivity.
  - repeat split; discriminate.
Defined.

(** ** Reading configuration files *)

Lemma assoc_assoc_set {A : Type} k k' (v : A) d :
  configparser.assoc k (configparser.assoc_set k' v d)
  = if String.eqb k k' then Some v else configparser.assoc k d.
Proof.
  induction d as [|[k0 v0] d IH]; simpl.
  - reflexivity.
  - destruct (String.eqb_spec k' k0) as [->|Hne]; simpl.
    + destruct (String.eqb k k0); reflexivity.
    + rewrite IH. destruct (String.eqb_spec k k0) as [->|Hk]; [|reflexivity].
      destruct (String.eqb_spec k0 k'); [congruence|reflexivity].
Qed.

Lemma items_override key (l cur : list (string * string)) :
  configparser.assoc key
    (fold_left (fun items kv =>
                  configparser.assoc_set (configparser.optionxform (fst kv))
                    (snd kv) items) l cur)
  = match configparser.assoc key
            (fold_left (fun items kv =>
                          configparser.assoc_set
                            (configparser.optionxform (fst kv)) (snd kv) items)
               l [])
    with
    | Some v => Some v
    | None => configparser.assoc key cur
    end.
Proof.
  revert cur. induction l as [|kv l IH]; intros cur; [reflexivity|].
  simpl. rewrite IH.
  rewrite (IH [(configparser.optionxform (fst kv), snd kv)]).
  destruct (configparser.assoc key (fold_left _ l [])); [reflexivity|].
  rewrite assoc_assoc_set. simpl.
  destruct (String.eqb key (configparser.optionxform (fst kv))); reflexivity.
Qed.

Lemma add_section_items_override cfg sec s k :
  value_in (configparser.add_section_items cfg sec) s k
  = match value_in (configparser.add_section_items configparser.empty sec) s k
    with
    | Some v => Some v
    | None => value_in cfg s k
    end.
Proof.
  unfold value_in, configparser.add_section_items, configparser.empty.
  rewrite !assoc_assoc_set. simpl.
  destruct (String.eqb_spec s (fst sec)) as [->|Hne]; [|reflexivity].
  rewrite items_override.
  destruct (configparser.assoc _ (fold_left _ (snd sec) [])); [reflexivity|].
  destruct (configparser.assoc (fst sec) cfg); reflexivity.
Qed.

(** Sections read later override the values read before, option by
    option. *)
Lemma sections_override secs cfg s k :
  value_in (fold_left configparser.add_section_items secs cfg) s k
  = match value_in (fold_left configparser.add_section_items secs
                      configparser.empty) s k with
    | Some v => Some v
    | None => value_in cfg s k
    end.
Proof.
  revert cfg. induction secs as [|sec secs IH]; intros cfg; [reflexivity|].
  simpl. rewrite IH.
  rewrite (IH (configparser.add_section_items configparser.empty sec)).
  destruct (value_in (fold_left _ secs configparser.empty) s k);
    [reflexivity|].
  apply add_section_items_override.
Qed.

Lemma sections_of_app w l1 l2 :
  sections_of w (l1 ++ l2) = sections_of w l1 ++ sections_of w l2.
Proof. unfold sections_of. apply flat_map_app. Qed.

Lemma read_returns w files cfg r :
  configparser.read (open_ w) cfg files = Return r ->
  r = (fold_left configparser.add_section_items (sections_of w files) cfg,
       filter (fun f => readable w f = true) files)
  /\ forall f, In f files -> open_ w f <> Some configparser.Malformed.
Proof.
  revert cfg r. induction files as [|f files IH]; intros cfg r H.
  - simpl in H. inversion H; subst. split; [reflexivity|intros f []].
  - assert (Hf : open_ w f <> Some configparser.Malformed).
    { intros E. simpl in H. rewrite E in H. discriminate. }
    assert (Hrest : forall g, In g files ->
                              open_ w g <> Some configparser.Malformed).
    { simpl in H. destruct (open_ w f) as [[|secs]|]; [congruence| |].
      - simpl in H.
        destruct (configparser.read (open_ w) _ files) as [r'|e] eqn:E;
          [|discriminate].
        exact (proj2 (IH _ _ E)).
      - exact (proj2 (IH _ _ H)). }
    split.
    + rewrite read_well_formed in H; [congruence|].
      intros g [<-|Hg]; auto.
    + intros g [<-|Hg]; auto.
Qed.

Lemma value_in_get cfg s k v :
  value_in cfg s k = Some v -> configparser.get cfg s k = Return v.
Proof.
  unfold value_in, configparser.get, configparser._sections_get,
    configparser._defaults.
  destruct (String.eqb_spec s configparser.DEFAULTSECT) as [->|_].
  - destruct (configparser.assoc configparser.DEFAULTSECT cfg); [|discriminate].
    intros ->. reflexivity.
  - destruct (configparser.assoc s cfg); [|discriminate].
    intros ->. reflexivity.
Qed.

Lemma files_without_value w files s k :
  Forall (fun g => file_value w g s k = None) files ->
  value_in (fold_left configparser.add_section_items (sections_of w files)
              configparser.empty) s k = None.
Proof.
  induction files as [|g files IH]; intros H; [reflexivity|].
  inversion H as [|? ? Hg Hfiles]; subst.
  change (g :: files) with ([g] ++ files).
  rewrite sections_of_app, fold_left_app, sections_override, IH by assumption.
  unfold sections_of. simpl. rewrite List.app_nil_r.
  unfold file_value in Hg.
  destruct (open_ w g) as [[|secs]|]; try reflexivity. exact Hg.
Qed.

Lemma read_later_wins w pre f post cfg0 r s k v :
  configparser.read (open_ w) cfg0 (pre ++ f :: post) = Return r ->
  file_value w f s k = Some v ->
  Forall (fun g => file_value w g s k = None) post ->
  value_in (fst r) s k = Some v.
Proof.
  intros Hr Hf Hpost. destruct (read_returns w _ _ _ Hr) as [-> _].
  cbn [fst].
  change (f :: post) with ([f] ++ post).
  rewrite !sections_of_app, !fold_left_app, sections_override.
  rewrite files_without_value by exact Hpost.
  rewrite sections_override.
  unfold sections_of. simpl. rewrite List.app_nil_r.
  unfold file_value in Hf.
  destruct (open_ w f) as [[|secs]|]; try discriminate.
  rewrite Hf. reflexivity.
Qed.

(** When several files of the list set an option, [_read_config] keeps
    the value of the last of them: a file overrides the files read before
    it, option by option. *)
Theorem read_config_later_file_wins (w : world) (pre post : list string)
    (f s k v : string) (cfg : configparser.RawConfigParser)
    (found : list string) :
  _read_config w (pre ++ f :: post) = Return (cfg, found) ->
  file_value w f s k = Some v ->
  Forall (fun g => file_value w g s k = None) post ->
  configparser.get cfg s k = Return v.
Proof.
  intros Hr Hf Hpost. apply value_in_get.
  unfold _read_config in Hr.
  destruct (configparser.read (open_ w) configparser.empty (pre ++ f :: post))
    as [r|e] eqn:E; [|discriminate].
  simpl in Hr. inversion Hr; subst.
  exact (read_later_wins w pre f post _ r s k v E Hf Hpost).
Qed.

Lemma read_config_later_file_wins_witness :
  configparser.get [("flake8", [("ignore", "E2"); ("max_line_length", "100")])]
    "flake8" "ignore" = Return "E2".
Proof.
  refine (read_config_later_file_wins world_nested ["/proj/sub/setup.cfg"]
            ["/setup.cfg"] "/proj/setup.cfg" "flake8" "ignore" "E2"
            [("flake8", [("ignore", "E2"); ("max_line_length", "100")])]
            ["/proj/sub/setup.cfg"; "/proj/setup.cfg"] _ _ _).
  - reflexivity.
  - reflexivity.
  - repeat constructor.
Defined.

Lemma file_value_exists w f s k v :
  file_value w f s k = Some v -> path_exists w f = true.
Proof.
  unfold file_value, open_, path_exists.
  destruct (fs w f); [reflexivity|discriminate].
Qed.

(** Among the local candidates, the last one that sets an option gives
    its value: as the sequence runs from the common ancestor up to the
    root, the file of a directory overrides the files of the directories
    below it, and within a directory [.<program_name>] overrides
    [tox.ini], which overrides [setup.cfg]. *)
Theorem local_configs_later_candidate_wins (w : world)
    (self : ConfigFileFinder) (pre post : list string) (f s k v : string)
    (cfg : configparser.RawConfigParser) :
  local_configs w self = Return cfg ->
  generate_possible_local_config_files w self = pre ++ f :: post ->
  file_value w f s k = Some v ->
  Forall (fun g => file_value w g s k = None) post ->
  configparser.get cfg s k = Return v.
Proof.
  intros Hl Hgen Hf Hpost. apply value_in_get.
  unfold local_configs, _read_config, local_config_files in Hl.
  rewrite Hgen, filter_app in Hl.
  rewrite filter_cons_True in Hl by (eapply file_value_exists; exact Hf).
  destruct (configparser.read (open_ w) configparser.empty _) as [r|e] eqn:E;
    [|discriminate].
  simpl in Hl. inversion Hl; subst.
  refine (read_later_wins w _ f _ _ r s k v E Hf _).
  apply Forall_forall. intros g Hg.
  apply list_elem_of_filter in Hg as [_ Hg].
  rewrite Forall_forall in Hpost. exact (Hpost g Hg).
Qed.

Lemma local_configs_later_candidate_wins_witness :
  configparser.get [("flake8", [("ignore", "E2"); ("max_line_length", "100")])]
    "flake8" "ignore" = Return "E2".
Proof.
  refine (local_configs_later_candidate_wins world_nested
            (ConfigFileFinder_init world_nested "flake8" ["/proj/sub"])
            ["/proj/sub/setup.cfg"; "/proj/sub/tox.ini"; "/proj/sub/.flake8"]
            ["/proj/tox.ini"; "/proj/.flake8";
             "/setup.cfg"; "/tox.ini"; "/.flake8"]
            "/proj/setup.cfg" "flake8" "ignore" "E2"
            [("flake8", [("ignore", "E2"); ("max_line_length", "100")])]
            _ _ _ _).
  - vm_compute. reflexivity.
  - vm_compute. reflexivity.
  - reflexivity.
  - repeat constructor.
Defined.

(** *** Option names *)

Lemma lower_ascii_idempotent a :
  Str.lower_ascii (Str.lower_ascii a) = Str.lower_ascii a.
Proof. destruct a as [[] [] [] [] [] [] [] []]; reflexivity. Qed.

Lemma optionxform_idempotent o :
  configparser.optionxform (configparser.optionxform o)
  = configparser.optionxform o.
Proof.
  unfold configparser.optionxform.
  induction o as [|a o IH]; [reflexivity|].
  simpl. rewrite lower_ascii_idempotent, IH. reflexivity.
Qed.

Lemma assoc_set_Forall {A : Type} (Q : string * A -> Prop) k v d :
  Forall Q d -> Q (k, v) -> Forall Q (configparser.assoc_set k v d).
Proof.
  intros Hd Hk. induction Hd as [|[k0 v0] d H0 Hd IH]; simpl.
  - repeat constructor. exact Hk.
  - destruct (String.eqb_spec k k0) as [<-|Hne]; constructor; auto.
Qed.

Lemma assoc_Forall {A : Type} (Q : string * A -> Prop) k v d :
  Forall Q d -> configparser.assoc k d = Some v -> Q (k, v).
Proof.
  intros Hd. induction Hd as [|[k0 v0] d H0 Hd IH]; simpl; [discriminate|].
  destruct (String.eqb_spec k k0) as [->|Hne]; [|exact IH].
  intros E. inversion E; subst. exact H0.
Qed.

Lemma add_section_items_transformed cfg sec :
  names_transformed cfg ->
  names_transformed (configparser.add_section_items cfg sec).
Proof.
  intros Hcfg. unfold configparser.add_section_items.
  apply assoc_set_Forall; [exact Hcfg|]. cbn [snd].
  assert (Hcur : Forall (fun kv : string * string =>
                           configparser.optionxform (fst kv) = fst kv)
                   match configparser.assoc (fst sec) cfg with
                   | Some items => items
                   | None => []
                   end).
  { destruct (configparser.assoc (fst sec) cfg) as [items|] eqn:E;
      [|constructor].
    exact (assoc_Forall _ _ _ _ Hcfg E). }
  revert Hcur. generalize (match configparser.assoc (fst sec) cfg with
                           | Some items => items
                           | None => []
                           end).
  induction (snd sec) as [|kv l IH]; intros cur Hcur; [exact Hcur|].
  simpl. apply IH. apply assoc_set_Forall; [exact Hcur|].
  apply optionxform_idempotent.
Qed.

Lemma fold_sections_transformed secs cfg :
  names_transformed cfg ->
  names_transformed (fold_left configparser.add_section_items secs cfg).
Proof.
  revert cfg. induction secs as [|sec secs IH]; intros cfg H; [exact H|].
  simpl. apply IH, add_section_items_transformed, H.
Qed.

Lemma assoc_In {A : Type} k (d : list (string * A)) :
  In k (map fst d) -> exists v, configparser.assoc k d = Some v.
Proof.
  induction d as [|[k0 v0] d IH]; [intros []|]. simpl.
  destruct (String.eqb_spec k k0) as [->|Hne]; [eauto|].
  intros [E|Hin]; [congruence|auto].
Qed.

Lemma read_config_transformed w files cfg found :
  _read_config w files = Return (cfg, found) -> names_transformed cfg.
Proof.
  intros Hr. unfold _read_config in Hr.
  destruct (configparser.read (open_ w) configparser.empty files)
    as [r|e] eqn:E; [|discriminate].
  simpl in Hr. inversion Hr; subst.
  destruct (read_returns w _ _ _ E) as [-> _]. cbn [fst].
  apply fold_sections_transformed. constructor.
Qed.

Lemma assoc_not_In {A : Type} k (d : list (string * A)) :
  existsb (String.eqb k) (map fst d) = false -> configparser.assoc k d = None.
Proof.
  induction d as [|[k0 v0] d IH]; [reflexivity|]. simpl.
  destruct (String.eqb k k0); [discriminate|exact IH].
Qed.

Lemma defaults_transformed cfg :
  names_transformed cfg ->
  Forall (fun kv => configparser.optionxform (fst kv) = fst kv)
         (configparser._defaults cfg).
Proof.
  intros Ht. unfold configparser._defaults.
  destruct (configparser.assoc configparser.DEFAULTSECT cfg) as [d|] eqn:E;
    [|constructor].
  exact (assoc_Forall _ _ _ _ Ht E).
Qed.

Lemma value_in_DEFAULT cfg n :
  value_in cfg configparser.DEFAULTSECT n
  = configparser.assoc (configparser.optionxform n) (configparser._defaults cfg).
Proof.
  unfold value_in, configparser._defaults.
  destruct (configparser.assoc configparser.DEFAULTSECT cfg); reflexivity.
Qed.

(** What [get] returns for a name that [options] lists: the value of the
    section if the section sets the name, the default otherwise. *)
Lemma listed_names_have_values cfg s names :
  names_transformed cfg ->
  configparser.options cfg s = Return names ->
  forall n, In n names ->
    exists v, configparser.get cfg s n = Return v
              /\ (value_in cfg s n = Some v
                  \/ (value_in cfg s n = None
                      /\ value_in cfg configparser.DEFAULTSECT n = Some v)).
Proof.
  intros Ht Ho n Hn. rewrite value_in_DEFAULT.
  unfold configparser.options, configparser._sections_get in Ho.
  unfold configparser.get, configparser._sections_get, value_in.
  destruct (String.eqb s configparser.DEFAULTSECT); [discriminate|].
  destruct (configparser.assoc s cfg) as [items|] eqn:Es; [|discriminate].
  inversion Ho; subst. clear Ho.
  pose proof (assoc_Forall _ _ _ _ Ht Es) as Hitems. cbn [snd] in Hitems.
  apply in_app_iff in Hn as [Hn|Hn].
  - destruct (assoc_In n items Hn) as [v Hv]. exists v.
    assert (Hx : configparser.optionxform n = n)
      by exact (assoc_Forall
                  (fun kv => configparser.optionxform (fst kv) = fst kv)
                  n v items Hitems Hv).
    rewrite Hx, Hv. split; [reflexivity|left; reflexivity].
  - apply List.filter_In in Hn as [Hd Hnot].
    apply negb_true_iff, assoc_not_In in Hnot.
    destruct (assoc_In n (configparser._defaults cfg) Hd) as [v Hv].
    exists v.
    assert (Hx : configparser.optionxform n = n)
      by exact (assoc_Forall
                  (fun kv => configparser.optionxform (fst kv) = fst kv)
                  n v _ (defaults_transformed cfg Ht) Hv).
    rewrite Hx, Hnot, Hv. split; [reflexivity|right; split; reflexivity].
Qed.

(** In a configuration that [_read_config] has read, what [options]
    lists can be read back: if [options(section)] returns, the section
    exists, and [get(section, name)] returns a value for every listed
    name and raises no [NoOptionError]: the value of the section where
    the section sets the name, and the value of [DEFAULT] for the names
    that [options] has from the defaults. *)
Theorem options_can_be_read_back (w : world) (files found : list string)
    (cfg : configparser.RawConfigParser) (s : string) (names : list string) :
  _read_config w files = Return (cfg, found) ->
  configparser.options cfg s = Return names ->
  configparser.has_section cfg s = true
  /\ (forall n, In n names ->
        exists v, configparser.get cfg s n = Return v
                  /\ (value_in cfg s n = Some v
                      \/ (value_in cfg s n = None
                          /\ value_in cfg configparser.DEFAULTSECT n = Some v))).
Proof.
  intros Hr Ho.
  pose proof (read_config_transformed w files cfg found Hr) as Ht.
  split.
  - unfold configparser.options in Ho. unfold configparser.has_section.
    destruct (configparser._sections_get cfg s); [reflexivity|discriminate].
  - exact (listed_names_have_values cfg s names Ht Ho).
Qed.

Lemma options_can_be_read_back_witness :
  configparser.has_section
    [("DEFAULT", [("ignore", "E9")]); ("flake8", [("max_line_length", "100")])]
    "flake8"
  = true
  /\ (exists v,
        configparser.get
          [("DEFAULT", [("ignore", "E9")]);
           ("flake8", [("max_line_length", "100")])]
          "flake8" "ignore" = Return v
        /\ (value_in
              [("DEFAULT", [("ignore", "E9")]);
               ("flake8", [("max_line_length", "100")])]
              "flake8" "ignore" = Some v
            \/ (value_in
                  [("DEFAULT", [("ignore", "E9")]);
                   ("flake8", [("max_line_length", "100")])]
                  "flake8" "ignore" = None
                /\ value_in
                     [("DEFAULT", [("ignore", "E9")]);
                      ("flake8", [("max_line_length", "100")])]
                     "DEFAULT" "ignore" = Some v))).
Proof.
  pose proof (options_can_be_read_back world_defaults
                ["/proj/setup.cfg"] ["/proj/setup.cfg"]
                [("DEFAULT", [("ignore", "E9")]);
                 ("flake8", [("max_line_length", "100")])]
                "flake8" ["max_line_length"; "ignore"] eq_refl eq_refl)
    as (Hs & Hget).
  split; [exact Hs|]. apply Hget. right. left. reflexivity.
Defined.

(** ** What [parse] looks at *)

Lemma walk_up_cwd w w' self p t :
  getcwd w = getcwd w' -> walk_up w self p t = walk_up w' self p t.
Proof.
  intros Hcwd. funelim (walk_up w self p t); simp walk_up; [reflexivity|].
  f_equal.
  - unfold candidates_in. rewrite Hcwd. reflexivity.
  - match goal with IH : forall w' : world, _ |- _ => apply IH end.
    exact Hcwd.
Qed.

Lemma read_ext (o1 o2 : string -> option configparser.contents) cfg files :
  (forall f, In f files -> o1 f = o2 f) ->
  configparser.read o1 cfg files = configparser.read o2 cfg files.
Proof.
  revert cfg. induction files as [|f files IH]; intros cfg H; [reflexivity|].
  simpl. rewrite <- (H f (or_introl eq_refl)).
  destruct (o1 f) as [c|].
  - destruct (configparser._read cfg c) as [cfg'|e]; [|reflexivity].
    simpl. rewrite IH; [reflexivity|]. intros g Hg. apply H. right. exact Hg.
  - apply IH. intros g Hg. apply H. right. exact Hg.
Qed.

Lemma read_config_ext w w' files :
  (forall f, In f files -> fs w f = fs w' f) ->
  _read_config w files = _read_config w' files.
Proof.
  intros H. unfold _read_config.
  rewrite (read_ext (open_ w) (open_ w')); [reflexivity|].
  intros f Hf. unfold open_. rewrite (H f Hf). reflexivity.
Qed.

Lemma filter_ext_In {A : Type} (f g : A -> bool) (l : list A) :
  (forall x, In x l -> f x = g x) ->
  filter (fun x => f x = true) l = filter (fun x => g x = true) l.
Proof.
  induction l as [|x l IH]; intros H; [reflexivity|].
  rewrite !filter_cons. rewrite <- (H x (or_introl eq_refl)).
  rewrite IH by (intros y Hy; apply H; right; exact Hy).
  destruct (decide (f x = true)); reflexivity.
Qed.

(** [parse] looks at the local candidates and at the user's file, and at
    nothing else: two states of the file system that agree on those paths
    give the same configurations and the same outcome of [parse],
    whatever other files they hold. *)
Theorem parse_reads_only_its_files (w w' : world) (self : MergedConfigParser) :
  getcwd w = getcwd w' ->
  (forall f,
     In f (generate_possible_local_config_files w (config_finder self)) ->
     fs w f = fs w' f) ->
  user_config_file w (config_finder self)
  = user_config_file w' (config_finder self) ->
  fs w (user_config_file w (config_finder self))
  = fs w' (user_config_file w (config_finder self)) ->
  local_configs w (config_finder self) = local_configs w' (config_finder self)
  /\ user_config w (config_finder self) = user_config w' (config_finder self)
  /\ parse w self = parse w' self.
Proof.
  intros Hcwd Hlocal Hfile Huser.
  assert (Hgen : generate_possible_local_config_files w (config_finder self)
                 = generate_possible_local_config_files w' (config_finder self))
    by (apply walk_up_cwd; exact Hcwd).
  assert (Hl : local_configs w (config_finder self)
               = local_configs w' (config_finder self)).
  { unfold local_configs, local_config_files. rewrite <- Hgen.
    assert (Hfilter :
      filter (fun filename => path_exists w filename = true)
        (generate_possible_local_config_files w (config_finder self))
      = filter (fun filename => path_exists w' filename = true)
          (generate_possible_local_config_files w (config_finder self))).
    { apply filter_ext_In. intros f Hf. unfold path_exists.
      rewrite (Hlocal f Hf). reflexivity. }
    rewrite <- Hfilter.
    rewrite (read_config_ext w w'); [reflexivity|].
    intros f Hf. apply list_elem_of_In, list_elem_of_filter in Hf as [_ Hf].
    apply Hlocal, list_elem_of_In. exact Hf. }
  assert (Hu : user_config w (config_finder self)
               = user_config w' (config_finder self)).
  { unfold user_config. rewrite <- Hfile.
    rewrite (read_config_ext w w'); [reflexivity|].
    intros f [<-|[]]. exact Huser. }
  split; [exact Hl|]. split; [exact Hu|].
  unfold parse, parse_user_config, parse_local_config, _parse_config.
  rewrite Hl, Hu. reflexivity.
Qed.

Lemma parse_reads_only_its_files_witness :
  local_configs world_both (config_finder (example_parser world_both))
  = local_configs world_both_and_more
      (config_finder (example_parser world_both))
  /\ user_config world_both (config_finder (example_parser world_both))
     = user_config world_both_and_more
         (config_finder (example_parser world_both))
  /\ parse world_both (example_parser world_both)
     = parse world_both_and_more (example_parser world_both).
Proof.
  apply (parse_reads_only_its_files world_both world_both_and_more
           (example_parser world_both)).
  - reflexivity.
  - assert (E : generate_possible_local_config_files world_both
                  (config_finder (example_parser world_both))
                = ["/proj/setup.cfg"; "/proj/tox.ini"; "/proj/.flake8";
                   "/setup.cfg"; "/tox.ini"; "/.flake8"])
      by (vm_compute; reflexivity).
    rewrite E. intros f [<-|[<-|[<-|[<-|[<-|[<-|[]]]]]]]; reflexivity.
  - reflexivity.
  - reflexivity.
Defined.

(** ** The outcomes of [parse] *)

Lemma local_configs_raises w finder e :
  local_configs w finder = Raise e -> e = ParsingError.
Proof.
  unfold local_configs, _read_config.
  generalize (local_config_files w finder) configparser.empty.
  intros files cfg.
  assert (H : forall r, configparser.read (open_ w) cfg files = Raise r ->
                        r = ParsingError).
  { revert cfg. induction files as [|f files IH]; intros cfg r; [discriminate|].
    simpl. destruct (open_ w f) as [[|secs]|]; simpl.
    - intros E; inversion E; reflexivity.
    - destruct (configparser.read (open_ w) _ files) eqn:E; simpl;
        [discriminate|].
      intros E'; inversion E'; subst. exact (IH _ _ E).
    - apply IH. }
  destruct (configparser.read (open_ w) cfg files) eqn:E; simpl;
    [discriminate|].
  intros E'; inversion E'; subst. exact (H _ eq_refl).
Qed.

(** [parse] returns in one kind of state only: the user's configuration
    has the section and the local configuration has not.  It then returns
    [None], and [parse_user_config] has returned the empty mapping,
    whatever the user's section sets.  In every other state [parse]
    raises. *)
Theorem parse_returns_exactly_when (w : world) (self : MergedConfigParser) :
  (parse w self = Return None <->
   exists ucfg lcfg,
     user_config w (config_finder self) = Return ucfg
     /\ local_configs w (config_finder self) = Return lcfg
     /\ is_configured_by self ucfg = true
     /\ is_configured_by self lcfg = false)
  /\ (forall d, parse_user_config w self = Return (Some d) <->
        d = ∅
        /\ exists ucfg lcfg,
             user_config w (config_finder self) = Return ucfg
             /\ local_configs w (config_finder self) = Return lcfg
             /\ is_configured_by self ucfg = true
             /\ is_configured_by self lcfg = false)
  /\ (parse w self = Return None \/ raises (parse w self)).
Proof.
  assert (Huser : forall d, parse_user_config w self = Return (Some d) <->
        d = ∅
        /\ exists ucfg lcfg,
             user_config w (config_finder self) = Return ucfg
             /\ local_configs w (config_finder self) = Return lcfg
             /\ is_configured_by self ucfg = true
             /\ is_configured_by self lcfg = false).
  { intros d. unfold parse_user_config, _parse_config, is_configured_by.
    destruct (user_config w (config_finder self)) as [ucfg|e]; simpl.
    2:{ split; [discriminate|]. intros (_ & ? & ? & ? & _). discriminate. }
    destruct (configparser.has_section ucfg (merged_program_name self)) eqn:Eu;
      simpl.
    2:{ split; [discriminate|].
        intros (_ & u & l & Hu & _ & Hs & _). inversion Hu; subst. congruence. }
    destruct (local_configs w (config_finder self)) as [lcfg|e]; simpl.
    2:{ split; [discriminate|]. intros (_ & ? & ? & _ & ? & _). discriminate. }
    destruct (configparser.has_section lcfg (merged_program_name self)) eqn:El;
      simpl.
    - split.
      + destruct (configparser.options ucfg _); simpl; [|discriminate].
        destruct (parse_config_loop self lcfg _ ∅); discriminate.
      + intros (_ & u & l & _ & Hl & _ & Hs). inversion Hl; subst. congruence.
    - split.
      + intros H; inversion H; subst. split; [reflexivity|].
        exists ucfg, lcfg. auto.
      + intros [-> _]. reflexivity. }
  split; [|split; [exact Huser|apply parse_outcomes]].
  split.
  - unfold parse. intros H.
    destruct (parse_user_config w self) as [[d|]|e] eqn:Epu; simpl in H.
    + destruct (proj1 (Huser d) eq_refl) as [_ Hex]. exact Hex.
    + destruct (parse_local_config w self); discriminate.
    + discriminate.
  - intros (ucfg & lcfg & Hu & Hl & Hus & Hls).
    assert (Hpu : parse_user_config w self = Return (Some ∅)).
    { apply Huser. split; [reflexivity|]. exists ucfg, lcfg. auto. }
    unfold parse. rewrite Hpu. simpl.
    unfold parse_local_config. rewrite Hl. simpl. rewrite Hls. reflexivity.
Qed.

Example user_options_are_dropped :
  user_config world_user_only (config_finder (example_parser world_user_only))
  = Return [("flake8", [("ignore", "E2")])]
  /\ parse_user_config world_user_only (example_parser world_user_only)
     = Return (Some ∅)
  /\ parse world_user_only (example_parser world_user_only) = Return None.
Proof. repeat split; vm_compute; reflexivity. Qed.

Lemma parse_config_loop_app self config l1 l2 d :
  parse_config_loop self config (l1 ++ l2) d
  = let* d1 := parse_config_loop self config l1 d in
    parse_config_loop self config l2 d1.
Proof.
  revert d. induction l1 as [|n l1 IH]; intros d; [reflexivity|].
  simpl. destruct (config_options self !! n) as [o|]; [|apply IH].
  destruct (coerce config (merged_program_name self) n o); simpl;
    [apply IH|reflexivity].
Qed.

Lemma coerce_missing config s n o :
  configparser.get config s n = Raise NoOptionError ->
  coerce config s n o = Raise NoOptionError.
Proof.
  intros H. unfold coerce, configparser.getint, configparser.getboolean.
  rewrite H.
  destruct (in_set (type (option_kwargs o)) GETINT_METHODS); [reflexivity|].
  destruct (in_set (action (option_kwargs o)) GETBOOL_METHODS); reflexivity.
Qed.

(** An option that the user's configuration lists and for which the
    local one has no value, neither in the section of the program nor
    among its defaults: [_parse_config] takes the name from the user's
    configuration and asks the local one for the value, so
    [parse_user_config], and [parse] with it, raise [NoOptionError],
    whatever the kind of the option. *)
Theorem user_option_missing_locally (w : world) (self : MergedConfigParser)
    (ucfg lcfg : configparser.RawConfigParser) (before after : list string)
    (k : string) (option : Option) (d : gmap string value) :
  user_config w (config_finder self) = Return ucfg ->
  local_configs w (config_finder self) = Return lcfg ->
  is_configured_by self lcfg = true ->
  configparser.options ucfg (merged_program_name self)
  = Return (before ++ k :: after) ->
  parse_config_loop self lcfg before ∅ = Return d ->
  config_options self !! k = Some option ->
  value_in lcfg (merged_program_name self) k = None ->
  value_in lcfg configparser.DEFAULTSECT k = None ->
  parse_user_config w self = Raise NoOptionError
  /\ parse w self = Raise NoOptionError.
Proof.
  intros Hu Hl Hls Ho Hbefore Hk Hv Hdef.
  assert (Hus : is_configured_by self ucfg = true).
  { unfold is_configured_by, configparser.has_section.
    unfold configparser.options in Ho.
    destruct (configparser._sections_get ucfg _); [reflexivity|discriminate]. }
  assert (Hget : configparser.get lcfg (merged_program_name self) k
                 = Raise NoOptionError).
  { rewrite value_in_DEFAULT in Hdef.
    unfold configparser.get. unfold value_in in Hv.
    unfold is_configured_by, configparser.has_section in Hls.
    unfold configparser._sections_get in *.
    destruct (String.eqb (merged_program_name self) configparser.DEFAULTSECT);
      [discriminate|].
    destruct (configparser.assoc _ lcfg); [|discriminate].
    rewrite Hv, Hdef. reflexivity. }
  assert (Hpu : parse_user_config w self = Raise NoOptionError).
  { unfold parse_user_config, _parse_config. rewrite Hu. simpl.
    rewrite Hus. simpl. rewrite Hl. simpl.
    unfold is_configured_by in Hls. rewrite Hls. simpl.
    rewrite Ho. simpl. rewrite parse_config_loop_app, Hbefore. simpl.
    rewrite Hk, (coerce_missing _ _ _ _ Hget). reflexivity. }
  split; [exact Hpu|]. unfold parse. rewrite Hpu. reflexivity.
Qed.

Lemma user_option_missing_locally_witness :
  parse_user_config world_user_sets_more (example_parser world_user_sets_more)
  = Raise NoOptionError
  /\ parse world_user_sets_more (example_parser world_user_sets_more)
     = Raise NoOptionError.
Proof.
  destruct (config_options (example_parser world_user_sets_more) !! "ignore")
    as [o|] eqn:Eo; [|vm_compute in Eo; discriminate].
  refine (user_option_missing_locally world_user_sets_more
            (example_parser world_user_sets_more)
            [("flake8", [("ignore", "E2")])]
            [("flake8", [("max_line_length", "100")])]
            [] [] "ignore" o ∅ _ _ _ _ _ Eo _ _);
    vm_compute; reflexivity.
Defined.

Example user_option_with_local_default :
  configparser.get [("DEFAULT", [("ignore", "E9")]);
                    ("flake8", [("max_line_length", "100")])]
    "flake8" "ignore" = Return "E9"
  /\ parse_user_config world_defaults (example_parser world_defaults)
     = Return None
  /\ parse world_defaults (example_parser world_defaults)
     = Raise AttributeError.
Proof. repeat split; vm_compute; reflexivity. Qed.

Lemma int_raises v e : configparser.int v = Raise e -> e = ValueError.
Proof.
  unfold configparser.int.
  destruct (match Str.strip configparser.whitespace v with
            | EmptyString => _
            | String _ _ => _
            end); [discriminate|].
  intros E; inversion E; reflexivity.
Qed.

Lemma coerce_errors config s n o v e :
  configparser.get config s n = Return v ->
  coerce config s n o = Raise e ->
  e <> NoSectionError /\ e <> NoOptionError.
Proof.
  intros Hget. unfold coerce, configparser.getint, configparser.getboolean.
  rewrite Hget. cbn [bind].
  assert (Hcomma : forall x,
            (if comma_separated_list o
             then parse_comma_separated_list x else Return x) = Raise e ->
            e <> NoSectionError /\ e <> NoOptionError).
  { intros x. destruct (comma_separated_list o); [|discriminate].
    destruct x; simpl; intros E; inversion E; split; discriminate. }
  destruct (in_set (type (option_kwargs o)) GETINT_METHODS).
  - destruct (configparser.int v) as [z|e'] eqn:Ei; cbn [bind].
    + exact (Hcomma (VInt z)).
    + intros E; inversion E; subst. rewrite (int_raises v e Ei).
      split; discriminate.
  - destruct (in_set (action (option_kwargs o)) GETBOOL_METHODS).
    + destruct (configparser.assoc (Str.lower v) configparser.BOOLEAN_STATES)
        as [b|]; cbn [bind].
      * exact (Hcomma (VBool b)).
      * intros E; inversion E; split; discriminate.
    + exact (Hcomma (VStr v)).
Qed.

Lemma parse_config_loop_errors self config names d e :
  (forall n, In n names ->
     exists v, configparser.get config (merged_program_name self) n = Return v) ->
  parse_config_loop self config names d = Raise e ->
  e <> NoSectionError /\ e <> NoOptionError.
Proof.
  revert d. induction names as [|n names IH]; intros d Hget; [discriminate|].
  assert (Hrest : forall m, In m names ->
            exists v,
              configparser.get config (merged_program_name self) m = Return v)
    by (intros m Hm; apply Hget; right; exact Hm).
  simpl. destruct (config_options self !! n) as [o|]; [|apply IH; exact Hrest].
  destruct (coerce config (merged_program_name self) n o) as [v|e'] eqn:Ec;
    simpl.
  - apply IH. exact Hrest.
  - intros E; inversion E; subst.
    destruct (Hget n (or_introl eq_refl)) as [v Hv].
    exact (coerce_errors _ _ _ _ v e Hv Ec).
Qed.

(** [parse_local_config] hands [_parse_config] the configuration that
    [_parse_config] reads again itself, so every name it iterates over,
    the section's own or one of the defaults, has a value: where it
    raises, the error is never [NoSectionError] nor [NoOptionError], and
    where it returns, it returns [None]. *)
Theorem parse_local_config_outcomes_and_errors (w : world)
    (self : MergedConfigParser) :
  (parse_local_config w self = Return None
   \/ raises (parse_local_config w self))
  /\ forall e, parse_local_config w self = Raise e ->
               e <> NoSectionError /\ e <> NoOptionError.
Proof.
  split; [apply parse_local_config_outcomes|].
  intros e. unfold parse_local_config, is_configured_by.
  destruct (local_configs w (config_finder self)) as [config|e'] eqn:El; simpl.
  2:{ intros E; inversion E; subst.
      rewrite (local_configs_raises _ _ _ El). split; discriminate. }
  destruct (configparser.has_section config (merged_program_name self)) eqn:Eh;
    simpl; [|discriminate].
  unfold _parse_config. rewrite El. simpl. rewrite Eh. simpl.
  destruct (configparser.options config (merged_program_name self))
    as [names|e'] eqn:Eo; simpl.
  2:{ unfold configparser.options, configparser.has_section in *.
      destruct (configparser._sections_get config _); discriminate. }
  destruct (parse_config_loop self config names ∅) as [d|e'] eqn:Ep; simpl;
    [discriminate|].
  intros E; inversion E; subst.
  refine (parse_config_loop_errors self config names ∅ e _ Ep).
  unfold local_configs in El.
  destruct (_read_config w (local_config_files w (config_finder self)))
    as [[cfg found]|e'] eqn:Er; [|discriminate].
  simpl in El. inversion El; subst.
  intros n Hn.
  destruct (listed_names_have_values config (merged_program_name self) names
              (read_config_transformed w _ config found Er) Eo n Hn)
    as (v & Hv & _).
  exists v. exact Hv.
Qed.

Lemma parse_local_config_outcomes_and_errors_witness :
  parse_local_config world_bad_integer (example_parser world_bad_integer)
  = Raise ValueError
  /\ ValueError <> NoSectionError /\ ValueError <> NoOptionError.
Proof.
  split; [vm_compute; reflexivity|].
  refine (proj2 (parse_local_config_outcomes_and_errors world_bad_integer
                   (example_parser world_bad_integer)) ValueError _).
  vm_compute. reflexivity.
Defined.

(** ** The user's file *)

(** Where the user's file is on POSIX.  With [XDG_CONFIG_HOME] set to a
    directory it is [program_name] in that directory, with one slash
    between; with [XDG_CONFIG_HOME] set and empty it is [program_name]
    itself, a path relative to the working directory, and the default
    [~/.config] is not used; with [XDG_CONFIG_HOME] unset it is
    [program_name] joined to the expansion of [~/.config].  The paths
    given on the command line have no part in it. *)
Theorem user_config_file_location (w : world) (prog : string)
    (args : list string) :
  win32 w = false ->
  component prog ->
  (forall d, XDG_CONFIG_HOME w = Some d -> Str.truthy d = true ->
     user_config_file w (ConfigFileFinder_init w prog args)
     = if Str.endswith d posixpath.sep then d +:+ prog
       else d +:+ "/" +:+ prog)
  /\ (XDG_CONFIG_HOME w = Some "" ->
      user_config_file w (ConfigFileFinder_init w prog args)
      = prog)
  /\ (XDG_CONFIG_HOME w = None ->
      user_config_file w (ConfigFileFinder_init w prog args)
      = posixpath.join (expanduser w "~/.config") prog)
  /\ (forall args',
        user_config_file w (ConfigFileFinder_init w prog args')
        = user_config_file w (ConfigFileFinder_init w prog args)).
Proof.
  intros Hw [Htr Hs].
  assert (Hst : Str.startswith prog "/" = false).
  { destruct prog as [|a p]; [discriminate|]. simpl in *.
    apply orb_false_iff in Hs as [Ha _]. unfold posixpath.sep in Ha.
    rewrite Ha. reflexivity. }
  unfold user_config_file. cbn [is_windows xdg_home program_name
                                  ConfigFileFinder_init].
  rewrite Hw. repeat split.
  - intros d Hd Hdt. rewrite Hd. unfold posixpath.join.
    rewrite Hst, Hdt. simpl. destruct (Str.endswith d posixpath.sep);
      reflexivity.
  - intros Hd. rewrite Hd. unfold posixpath.join. rewrite Hst. reflexivity.
  - intros Hd. rewrite Hd. reflexivity.
Qed.

Lemma user_config_file_location_witness :
  (forall d, XDG_CONFIG_HOME world_empty = Some d -> Str.truthy d = true ->
     user_config_file world_empty (ConfigFileFinder_init world_empty "flake8" [])
     = if Str.endswith d posixpath.sep then d +:+ "flake8"
       else d +:+ "/" +:+ "flake8")
  /\ (XDG_CONFIG_HOME world_empty = Some "" ->
      user_config_file world_empty
        (ConfigFileFinder_init world_empty "flake8" [])
      = "flake8")
  /\ (XDG_CONFIG_HOME world_empty = None ->
      user_config_file world_empty
        (ConfigFileFinder_init world_empty "flake8" [])
      = posixpath.join (expanduser world_empty "~/.config") "flake8")
  /\ (forall args',
        user_config_file world_empty
          (ConfigFileFinder_init world_empty "flake8" args')
        = user_config_file world_empty
            (ConfigFileFinder_init world_empty "flake8" [])).
Proof.
  apply (user_config_file_location world_empty "flake8" []).
  - reflexivity.
  - split; reflexivity.
Defined.
